(** * Agent memory manager: a shallow embedding of the Python sources

    The development follows the three source files:
    - [history_store.py]  (class [JsonlHistoryStore]),
    - [summarizer.py]     (class [LlmSummarizer]),
    - [agent_memory.py]   (class [AgentMemoryManager] and its helpers).

    Python [str] values are lists of characters whose code point is below
    256; [str.strip], [str.lower] and [repr] are given for that range.
    Python exceptions are values of [exn]; a method that mutates [self] or
    the file system is a function in the state-and-exception monad [M],
    whose result keeps the state reached when the exception was raised. *)

From Stdlib Require Import ZArith Ascii String List Bool Lia Sorting.Sorted.
From stdpp Require Import base option list gmap strings pretty.

Local Open Scope list_scope.
Set Warnings "-register-all".


(** ** Text *)

Abbreviation text := (list ascii).

(** A literal of the source, as a list of characters. *)
Definition tx (s : string) : text := list_ascii_of_string s.

Definition code (c : ascii) : nat := nat_of_ascii c.
Definition chr (n : nat) : ascii := ascii_of_nat n.

Definition nl : text := [chr 10].
Definition dq : ascii := chr 34.
Definition bs : ascii := chr 92.

Definition ascii_eqb (a b : ascii) : bool := Ascii.eqb a b.

Fixpoint text_eqb (a b : text) : bool :=
  match a, b with
  | [], [] => true
  | x :: a', y :: b' => ascii_eqb x y && text_eqb a' b'
  | _, _ => false
  end.

(** [str.isspace] on one character (code points below 256). *)
Definition isspace (c : ascii) : bool :=
  let n := code c in
  ((9 <=? n) && (n <=? 13)) || ((28 <=? n) && (n <=? 32))
  || (n =? 133) || (n =? 160).

(** [str.lower] on one character (code points below 256). *)
Definition lower_char (c : ascii) : ascii :=
  let n := code c in
  if ((65 <=? n) && (n <=? 90))
     || ((192 <=? n) && (n <=? 222) && negb (n =? 215))
  then chr (n + 32) else c.

Definition lower (s : text) : text := map lower_char s.

Fixpoint lstrip (s : text) : text :=
  match s with
  | c :: r => if isspace c then lstrip r else s
  | [] => []
  end.

Definition rstrip (s : text) : text := rev (lstrip (rev s)).

(** [str.strip()] *)
Definition strip (s : text) : text := rstrip (lstrip s).

Fixpoint is_prefix (q s : text) : bool :=
  match q, s with
  | [], _ => true
  | a :: q', b :: s' => ascii_eqb a b && is_prefix q' s'
  | _ :: _, [] => false
  end.

(** The scan of [str.count]: left to right, and after a match the next
    [length q - 1] positions are skipped, so matches never overlap. *)
Fixpoint count_from (q : text) (skip : nat) (s : text) : nat :=
  match s with
  | [] => 0
  | _ :: s' =>
      match skip with
      | S k => count_from q k s'
      | O => if is_prefix q s
             then S (count_from q (length q - 1) s')
             else count_from q 0 s'
      end
  end.

(** [s.count(q)] *)
Definition str_count (s q : text) : nat :=
  match q with
  | [] => S (length s)
  | _ => count_from q 0 s
  end.

Fixpoint take_while {A} (p : A -> bool) (l : list A) : list A :=
  match l with
  | x :: l' => if p x then x :: take_while p l' else []
  | [] => []
  end.

Fixpoint drop_while {A} (p : A -> bool) (l : list A) : list A :=
  match l with
  | x :: l' => if p x then drop_while p l' else l
  | [] => []
  end.

(** [sep.join(parts)] *)
Fixpoint join (sep : text) (parts : list text) : text :=
  match parts with
  | [] => []
  | [p] => p
  | p :: ps => p ++ sep ++ join sep ps
  end.

(** [l[:n]] for a Python integer [n]: a negative [n] counts from the end. *)
Definition slice_to {A} (n : Z) (l : list A) : list A :=
  if (0 <=? n)%Z then take (Z.to_nat n) l
  else take (length l - Z.to_nat (- n)) l.

(** [l[-k:]] for a positive [k]. *)
Definition slice_last {A} (k : nat) (l : list A) : list A :=
  drop (length l - k) l.

(** [str(n)] of a non-negative integer. *)
Definition str_nat (n : nat) : text := tx (pretty n).

(** [str(z)] of an integer. *)
Definition str_int (z : Z) : text := tx (pretty z).

(** ** Python values (what a turn dictionary and a JSON document hold)

    A float is carried by its [repr], the text [json.dumps] writes for it;
    a dictionary keeps its insertion order. *)

Inductive value : Type :=
| VNone
| VBool (b : bool)
| VInt (z : Z)
| VFloat (lit : text)
| VStr (s : text)
| VList (l : list value)
| VDict (d : list (text * value)).

Fixpoint dict_lookup (k : text) (d : list (text * value)) : option value :=
  match d with
  | [] => None
  | (k', v) :: d' => if text_eqb k k' then Some v else dict_lookup k d'
  end.

(** [d[k] = v]: an existing key keeps its place, a new one goes last. *)
Fixpoint dict_set (k : text) (v : value) (d : list (text * value))
  : list (text * value) :=
  match d with
  | [] => [(k, v)]
  | (k', v') :: d' =>
      if text_eqb k k' then (k, v) :: d' else (k', v') :: dict_set k v d'
  end.

(** [dict(pairs)] *)
Definition dict_of_pairs (ps : list (text * value)) : list (text * value) :=
  fold_left (fun d p => dict_set (fst p) (snd p) d) ps [].

Definition all_zero_mantissa (lit : text) : bool :=
  forallb (fun c => negb (((49 <=? code c) && (code c <=? 57))))
          (take_while (fun c => negb (ascii_eqb c "e"%char || ascii_eqb c "E"%char)) lit)
  && negb (text_eqb lit (tx "nan")) && negb (text_eqb lit (tx "inf"))
  && negb (text_eqb lit (tx "-inf")).

(** [bool(v)] *)
Definition truthy (v : value) : bool :=
  match v with
  | VNone => false
  | VBool b => b
  | VInt z => negb (z =? 0)%Z
  | VFloat lit => negb (all_zero_mantissa lit)
  | VStr s => negb (text_eqb s [])
  | VList l => match l with [] => false | _ => true end
  | VDict d => match d with [] => false | _ => true end
  end.

(** ** Exceptions and the two monads *)

Inductive exn : Type :=
| JSONDecodeError
| AttributeError
| KeyError
| TypeError
| OSError
| ClientError (msg : text).

Inductive result (A : Type) : Type :=
| Ok (a : A)
| Exc (e : exn).
Arguments Ok {A} a.
Arguments Exc {A} e.

Definition result_bind {A B} (f : A -> result B) (r : result A) : result B :=
  match r with
  | Ok a => f a
  | Exc e => Exc e
  end.

#[global] Instance result_ret : MRet result := fun _ a => Ok a.
#[global] Instance result_mbind : MBind result := fun _ _ f r => result_bind f r.

(** [for x in l: f(x)] collecting the results, stopping at the first
    exception. *)
Fixpoint result_map {A B} (f : A -> result B) (l : list A) : result (list B) :=
  match l with
  | [] => Ok []
  | x :: l' =>
      match f x with
      | Exc e => Exc e
      | Ok y =>
          match result_map f l' with
          | Exc e => Exc e
          | Ok ys => Ok (y :: ys)
          end
      end
  end.

(** State and exceptions: the state survives a raise. *)
Definition M (S A : Type) : Type := S -> result A * S.

Definition m_ret {S A} (a : A) : M S A := fun s => (Ok a, s).
Definition m_raise {S A} (e : exn) : M S A := fun s => (Exc e, s).
Definition m_bind {S A B} (c : M S A) (k : A -> M S B) : M S B :=
  fun s =>
    match c s with
    | (Ok a, s') => k a s'
    | (Exc e, s') => (Exc e, s')
    end.
Definition m_get {S} : M S S := fun s => (Ok s, s).
Definition m_modify {S} (f : S -> S) : M S unit := fun s => (Ok tt, f s).
Definition m_lift {S A} (r : result A) : M S A := fun s => (r, s).

Declare Scope m_scope.
Delimit Scope m_scope with m.
Notation "'do' x <- c ;; k" := (m_bind c (fun x => k))
  (at level 10, x name, c at level 99, k at level 200) : m_scope.
Notation "'run' c ;; k" := (m_bind c (fun _ => k))
  (at level 10, c at level 99, k at level 200) : m_scope.

(** ** [json.dumps(v, ensure_ascii=False)] *)

Definition hex_digit (n : nat) : ascii :=
  nth n (tx "0123456789abcdef") "0"%char.

(** One character of [encode_basestring]: the quote, the backslash and the
    control characters are escaped, everything else is written as it is. *)
Definition escape_char (c : ascii) : text :=
  let n := code c in
  if n =? 34 then [bs; dq]
  else if n =? 92 then [bs; bs]
  else if n =? 8 then bs :: tx "b"
  else if n =? 12 then bs :: tx "f"
  else if n =? 10 then bs :: tx "n"
  else if n =? 13 then bs :: tx "r"
  else if n =? 9 then bs :: tx "t"
  else if n <? 32 then bs :: tx "u00" ++ [hex_digit (n / 16); hex_digit (n mod 16)]
  else [c].

Definition escape (s : text) : text := concat (map escape_char s).

Definition encode_basestring (s : text) : text :=
  dq :: escape s ++ [dq].

(** [float.__repr__] as [json.dumps] writes it. *)
Definition dumps_float (lit : text) : text :=
  if text_eqb lit (tx "nan") then tx "NaN"
  else if text_eqb lit (tx "inf") then tx "Infinity"
  else if text_eqb lit (tx "-inf") then tx "-Infinity"
  else lit.

Fixpoint json_dumps (v : value) : text :=
  match v with
  | VNone => tx "null"
  | VBool true => tx "true"
  | VBool false => tx "false"
  | VInt z => str_int z
  | VFloat lit => dumps_float lit
  | VStr s => encode_basestring s
  | VList l => tx "[" ++ join (tx ", ") (map json_dumps l) ++ tx "]"
  | VDict d =>
      tx "{"
      ++ join (tx ", ")
           (map (fun p => encode_basestring (fst p) ++ tx ": "
                          ++ json_dumps (snd p)) d)
      ++ tx "}"
  end.

(** ** [json.loads(line)]

    The decoder follows CPython's scanner: [scanstring] for string bodies,
    the number pattern, the literals, and the array and object loops.  A
    [\uXXXX] escape is decoded when its code point is below 256.  [None]
    stands for [JSONDecodeError]. *)

Definition is_json_ws (c : ascii) : bool :=
  let n := code c in (n =? 32) || (n =? 9) || (n =? 10) || (n =? 13).

Definition skip_ws (s : text) : text := drop_while is_json_ws s.

Definition hex_value (c : ascii) : option nat :=
  let n := code c in
  if (48 <=? n) && (n <=? 57) then Some (n - 48)
  else if (97 <=? n) && (n <=? 102) then Some (n - 87)
  else if (65 <=? n) && (n <=? 70) then Some (n - 55)
  else None.

(** The table [BACKSLASH] of the decoder. *)
Definition unescape (e : ascii) : option ascii :=
  let n := code e in
  if (n =? 34) || (n =? 92) || (n =? 47) then Some e
  else if n =? 98 then Some (chr 8)
  else if n =? 102 then Some (chr 12)
  else if n =? 110 then Some (chr 10)
  else if n =? 114 then Some (chr 13)
  else if n =? 116 then Some (chr 9)
  else None.

(** The body of a string, read from just after its opening quote, with
    what follows the closing quote. *)
Fixpoint scanstring (s : text) : option (text * text) :=
  match s with
  | [] => None
  | c :: r =>
      if code c =? 34 then Some ([], r)
      else if code c =? 92 then
        match r with
        | [] => None
        | e :: r' =>
            if code e =? 117 then
              match r' with
              | h1 :: h2 :: h3 :: h4 :: r'' =>
                  match hex_value h1, hex_value h2, hex_value h3, hex_value h4 with
                  | Some a, Some b, Some c', Some d =>
                      let cp := 4096 * a + 256 * b + 16 * c' + d in
                      if cp <? 256 then
                        match scanstring r'' with
                        | Some (t, rest) => Some (chr cp :: t, rest)
                        | None => None
                        end
                      else None
                  | _, _, _, _ => None
                  end
              | _ => None
              end
            else
              match unescape e with
              | Some ch =>
                  match scanstring r' with
                  | Some (t, rest) => Some (ch :: t, rest)
                  | None => None
                  end
              | None => None
              end
        end
      else if code c <? 32 then None
      else
        match scanstring r with
        | Some (t, rest) => Some (c :: t, rest)
        | None => None
        end
  end.

Definition is_digit (c : ascii) : bool := (48 <=? code c) && (code c <=? 57).

Definition is_num_char (c : ascii) : bool :=
  let n := code c in
  is_digit c || (n =? 43) || (n =? 45) || (n =? 46) || (n =? 101) || (n =? 69).

(** The integer part, a single 0 or a digit 1-9 and any digits: what
    follows it. *)
Definition int_part (s : text) : option text :=
  match s with
  | c :: r =>
      if code c =? 48 then Some r
      else if is_digit c then Some (drop_while is_digit r)
      else None
  | [] => None
  end.

(** The optional fraction: a dot and at least one digit. *)
Definition frac_part (s : text) : bool * text :=
  match s with
  | p :: d :: r =>
      if (code p =? 46) && is_digit d then (true, drop_while is_digit r)
      else (false, s)
  | _ => (false, s)
  end.

(** The optional exponent: e or E, an optional sign, at least one digit. *)
Definition exp_part (s : text) : bool * text :=
  match s with
  | e :: r =>
      if (code e =? 101) || (code e =? 69) then
        let r' := match r with
                  | g :: r1 => if (code g =? 43) || (code g =? 45) then r1 else r
                  | [] => r
                  end in
        match r' with
        | d :: r2 => if is_digit d then (true, drop_while is_digit r2) else (false, s)
        | [] => (false, s)
        end
      else (false, s)
  | [] => (false, s)
  end.

Definition digits_value (s : text) : Z :=
  fold_left (fun acc c => (10 * acc + Z.of_nat (code c - 48))%Z) s 0%Z.

(** [int(lit)] of an integer literal. *)
Definition int_of_text (lit : text) : Z :=
  match lit with
  | c :: r => if code c =? 45 then (- digits_value r)%Z else digits_value lit
  | [] => 0%Z
  end.

(** The number pattern applied to a whole run of number characters: an
    integer literal is an [int], one with a fraction or an exponent a
    [float]. *)
Definition parse_number (lit : text) : option value :=
  let body := match lit with
              | c :: r => if code c =? 45 then r else lit
              | [] => lit
              end in
  match int_part body with
  | None => None
  | Some r1 =>
      let '(f, r2) := frac_part r1 in
      let '(e, r3) := exp_part r2 in
      match r3 with
      | [] => Some (if f || e then VFloat lit else VInt (int_of_text lit))
      | _ :: _ => None
      end
  end.

Section Containers.
Variable scan : text -> option (value * text).

(** The loop of [JSONArray], entered at the first element. *)
Fixpoint parse_items (n : nat) (s : text) : option (list value * text) :=
  match n with
  | O => None
  | S n' =>
      match scan s with
      | None => None
      | Some (v, r) =>
          match skip_ws r with
          | c :: r' =>
              if code c =? 93 then Some ([v], r')
              else if code c =? 44 then
                match parse_items n' (skip_ws r') with
                | Some (vs, r'') => Some (v :: vs, r'')
                | None => None
                end
              else None
          | [] => None
          end
      end
  end.

(** [JSONArray], entered after the opening bracket. *)
Definition parse_array (s : text) : option (list value * text) :=
  match skip_ws s with
  | c :: r => if code c =? 93 then Some ([], r)
              else parse_items (length s) (skip_ws s)
  | [] => None
  end.

(** The loop of [JSONObject], entered at the quote that opens a key. *)
Fixpoint parse_members (n : nat) (s : text)
  : option (list (text * value) * text) :=
  match n with
  | O => None
  | S n' =>
      match s with
      | q :: r =>
          if code q =? 34 then
            match scanstring r with
            | None => None
            | Some (k, r1) =>
                match skip_ws r1 with
                | c :: r2 =>
                    if code c =? 58 then
                      match scan (skip_ws r2) with
                      | None => None
                      | Some (v, r3) =>
                          match skip_ws r3 with
                          | d :: r4 =>
                              if code d =? 125 then Some ([(k, v)], r4)
                              else if code d =? 44 then
                                match parse_members n' (skip_ws r4) with
                                | Some (ms, r5) => Some ((k, v) :: ms, r5)
                                | None => None
                                end
                              else None
                          | [] => None
                          end
                      end
                    else None
                | [] => None
                end
            end
          else None
      | [] => None
      end
  end.

(** [JSONObject], entered after the opening brace. *)
Definition parse_object (s : text) : option (list (text * value) * text) :=
  match skip_ws s with
  | c :: r => if code c =? 125 then Some ([], r)
              else parse_members (length s) (skip_ws s)
  | [] => None
  end.
End Containers.

(** [scan_once]: one value at the head of [s].  [fuel] bounds the nesting
    of arrays and objects; [json_loads] gives more fuel than the line has
    characters, and every level of nesting consumes a bracket. *)
Fixpoint scan_once (fuel : nat) (s : text) : option (value * text) :=
  match fuel with
  | O => None
  | S f =>
      match s with
      | [] => None
      | c :: r =>
          if code c =? 34 then
            match scanstring r with
            | Some (t, r') => Some (VStr t, r')
            | None => None
            end
          else if code c =? 123 then
            match parse_object (scan_once f) r with
            | Some (ms, r') => Some (VDict (dict_of_pairs ms), r')
            | None => None
            end
          else if code c =? 91 then
            match parse_array (scan_once f) r with
            | Some (vs, r') => Some (VList vs, r')
            | None => None
            end
          else if is_prefix (tx "null") s then Some (VNone, drop 4 s)
          else if is_prefix (tx "true") s then Some (VBool true, drop 4 s)
          else if is_prefix (tx "false") s then Some (VBool false, drop 5 s)
          else if is_prefix (tx "NaN") s then Some (VFloat (tx "nan"), drop 3 s)
          else if is_prefix (tx "Infinity") s then Some (VFloat (tx "inf"), drop 8 s)
          else if is_prefix (tx "-Infinity") s then Some (VFloat (tx "-inf"), drop 9 s)
          else
            match parse_number (take_while is_num_char s) with
            | Some v => Some (v, drop_while is_num_char s)
            | None => None
            end
      end
  end.

Definition json_loads (line : text) : result value :=
  match scan_once (S (length line)) (skip_ws line) with
  | Some (v, r) =>
      match skip_ws r with
      | [] => Ok v
      | _ :: _ => Exc JSONDecodeError
      end
  | None => Exc JSONDecodeError
  end.

(** ** [str(v)] and [repr(v)], used when a value is formatted into text *)

Definition printable (c : ascii) : bool :=
  let n := code c in
  negb ((n <? 32) || ((127 <=? n) && (n <=? 160)) || (n =? 173)).

Definition repr_char (quote c : ascii) : text :=
  let n := code c in
  if ascii_eqb c quote || (n =? 92) then [bs; c]
  else if n =? 9 then bs :: tx "t"
  else if n =? 10 then bs :: tx "n"
  else if n =? 13 then bs :: tx "r"
  else if printable c then [c]
  else bs :: tx "x" ++ [hex_digit (n / 16); hex_digit (n mod 16)].

Definition repr_str (s : text) : text :=
  let quote :=
    if existsb (fun c => code c =? 39) s && negb (existsb (fun c => code c =? 34) s)
    then dq else chr 39 in
  quote :: concat (map (repr_char quote) s) ++ [quote].

Fixpoint py_repr (v : value) : text :=
  match v with
  | VNone => tx "None"
  | VBool true => tx "True"
  | VBool false => tx "False"
  | VInt z => str_int z
  | VFloat lit => lit
  | VStr s => repr_str s
  | VList l => tx "[" ++ join (tx ", ") (map py_repr l) ++ tx "]"
  | VDict d =>
      tx "{"
      ++ join (tx ", ")
           (map (fun p => repr_str (fst p) ++ tx ": " ++ py_repr (snd p)) d)
      ++ tx "}"
  end.

Definition py_str (v : value) : text :=
  match v with
  | VStr s => s
  | _ => py_repr v
  end.

(** [row.get(k)]: [None] of Python is [VNone]. *)
Definition value_get (k : text) (row : value) : result value :=
  match row with
  | VDict d => Ok (default VNone (dict_lookup k d))
  | _ => Exc AttributeError
  end.

(** [len(v)] *)
Definition py_len (v : value) : result nat :=
  match v with
  | VStr s => Ok (length s)
  | VList l => Ok (length l)
  | VDict d => Ok (length d)
  | _ => Exc TypeError
  end.

(** ** The file system and the calls that leave the process

    [files] maps a path to the text of the file.  [write_budget] is the
    number of record writes the device still accepts ([None]: no limit); a
    write beyond it raises [OSError].  [trace] lists, oldest first, the
    file operations and the calls of the model client. *)

Inductive Event : Type :=
| EvExists (p : text)
| EvOpenRead (p : text)
| EvOpenAppend (p : text)
| EvWrite (p : text) (data : text)
| EvLlm (system_prompt user_prompt : text).

Record World : Type := mkWorld {
  files : gmap text text;
  write_budget : option nat;
  trace : list Event
}.

Definition log (e : Event) : M World unit :=
  m_modify (fun w => mkWorld (files w) (write_budget w) (trace w ++ [e])).

(** [for line in f]: the lines of a text file, each with its newline.
    The text is the one Python's text layer hands out, newline translation
    done; a last line may lack its newline. *)
Fixpoint file_lines (s : text) : list text :=
  match s with
  | [] => []
  | c :: r =>
      if code c =? 10 then [c] :: file_lines r
      else match file_lines r with
           | [] => [[c]]
           | l :: ls => (c :: l) :: ls
           end
  end.

(** [p.open("a")]: the file is created when it is missing. *)
Definition open_append (p : text) : M World unit :=
  fun w =>
    (Ok tt,
     mkWorld (<[p := default [] (files w !! p)]> (files w))
             (write_budget w) (trace w ++ [EvOpenAppend p])).

(** [f.write(data)] on a file opened for appending. *)
Definition file_write (p : text) (data : text) : M World unit :=
  fun w =>
    match write_budget w with
    | Some O => (Exc OSError, w)
    | b =>
        (Ok tt,
         mkWorld (<[p := default [] (files w !! p) ++ data]> (files w))
                 (pred <$> b) (trace w ++ [EvWrite p data]))
    end.

(** ** history_store.py *)

Module JsonlHistoryStore.

Record t : Type := mk { root : text }.

(** [self.root / f"{session_id}.jsonl"], for a session identifier that is
    a plain file name. *)
Definition _path (self : t) (session_id : text) : text :=
  root self ++ tx "/" ++ session_id ++ tx ".jsonl".

Fixpoint write_turns (p : text) (turns : list value) : M World unit :=
  match turns with
  | [] => m_ret tt
  | t :: rest =>
      (run file_write p (json_dumps t ++ nl) ;; write_turns p rest)%m
  end.

Definition append (self : t) (session_id : text) (turns : list value)
  : M World unit :=
  let p := _path self session_id in
  (run open_append p ;; write_turns p turns)%m.

Definition read_all (self : t) (session_id : text) : M World (list value) :=
  let p := _path self session_id in
  (run log (EvExists p) ;;
   do w <- m_get ;;
   match files w !! p with
   | None => m_ret []
   | Some data =>
       run log (EvOpenRead p) ;;
       m_lift (result_map json_loads (file_lines data))
   end)%m.

(** A search hit.  [score] is the occurrence count that the source turns
    into a float. *)
Record Hit : Type := mkHit { score : nat; turn : value }.

(** The body of the loop over the rows, for one row. *)
Definition row_score (q : text) (row : value) : result nat :=
  match value_get (tx "content") row with
  | Exc e => Exc e
  | Ok c =>
      match (if truthy c then c else VStr []) with
      | VStr s => Ok (str_count (lower s) q)
      | _ => Exc AttributeError
      end
  end.

Fixpoint collect_hits (q : text) (rows : list value) : result (list Hit) :=
  match rows with
  | [] => Ok []
  | row :: rest =>
      match row_score q row with
      | Exc e => Exc e
      | Ok n =>
          match collect_hits q rest with
          | Exc e => Exc e
          | Ok hs => Ok (if 0 <? n then mkHit n row :: hs else hs)
          end
      end
  end.

(** [hits.sort(key=score, reverse=True)]: a stable sort, so a hit goes
    in front of the hits of the same score that came after it. *)
Fixpoint insert_desc (h : Hit) (l : list Hit) : list Hit :=
  match l with
  | [] => [h]
  | x :: l' => if score h <? score x then x :: insert_desc h l' else h :: l
  end.

Fixpoint sort_desc (l : list Hit) : list Hit :=
  match l with
  | [] => []
  | h :: l' => insert_desc h (sort_desc l')
  end.

Definition keyword_search (self : t) (session_id : text) (query : text)
    (top_k : Z) : M World (list Hit) :=
  let q := lower (strip query) in
  match q with
  | [] => m_ret []
  | _ :: _ =>
      (do rows <- read_all self session_id ;;
       do hits <- m_lift (collect_hits q rows) ;;
       m_ret (slice_to top_k (sort_desc hits)))%m
  end.

End JsonlHistoryStore.

(** ** A turn of the conversation, as [_add_turn] builds it *)

Record Turn : Type := mkTurn {
  t_role : text;
  t_content : text;
  t_ts : text;      (* the float of [time.time()], by its [repr] *)
  t_id : text
}.

(** The dictionary of a turn, keys in the order of the literal. *)
Definition turn_dict (t : Turn) : value :=
  VDict [(tx "role", VStr (t_role t));
         (tx "content", VStr (t_content t));
         (tx "ts", VFloat (t_ts t));
         (tx "id", VStr (t_id t))].

(** ** summarizer.py *)

Module LlmSummarizer.

(** [llm_client(system_prompt, user_prompt)] returns text or raises. *)
Record t : Type := mk { llm_client : text -> text -> result text }.

Definition system_prompt : text :=
  tx "You summarize agent conversations into a compact state log." ++ nl
  ++ tx "Rules:" ++ nl
  ++ tx "- Keep only stable facts, decisions, failures, and next steps." ++ nl
  ++ tx "- Do NOT include fluff." ++ nl
  ++ tx "- Do NOT copy the whole transcript." ++ nl
  ++ tx "- Write in plain text." ++ nl
  ++ tx "- Output format:" ++ nl
  ++ tx "  Goal:" ++ nl
  ++ tx "  Key facts:" ++ nl
  ++ tx "  Decisions:" ++ nl
  ++ tx "  What we tried:" ++ nl
  ++ tx "  Failures / risks:" ++ nl
  ++ tx "  Next step:" ++ nl.

Definition in_transcript (t : Turn) : bool :=
  (text_eqb (t_role t) (tx "user") || text_eqb (t_role t) (tx "assistant"))
  && negb (text_eqb (strip (t_content t)) []).

Definition transcript (recent_turns : list Turn) : text :=
  join nl (map (fun t => t_role t ++ tx ": " ++ strip (t_content t))
               (List.filter in_transcript recent_turns)).

Definition user_prompt (previous_summary : text) (recent_turns : list Turn)
  : text :=
  tx "Previous state summary (may be empty):" ++ nl
  ++ strip previous_summary ++ nl ++ nl
  ++ tx "Recent turns:" ++ nl
  ++ transcript recent_turns ++ nl ++ nl
  ++ tx "Update the state summary now.".

Definition compact (self : t) (previous_summary : text)
    (recent_turns : list Turn) : M World text :=
  let up := user_prompt previous_summary recent_turns in
  (run log (EvLlm system_prompt up) ;;
   do out <- m_lift (llm_client self system_prompt up) ;;
   m_ret (strip out))%m.

End LlmSummarizer.

(** ** agent_memory.py *)

Record MemoryConfig : Type := mkConfig {
  max_turns : Z;
  max_tokens : Z;
  search_top_k : Z;
  summary_max_chars : Z
}.

Record Notes : Type := mkNotes {
  n_history_query : option text;
  n_guardrails : text
}.

Record PromptLedger : Type := mkLedger {
  l_session_id : text;
  token_estimate : nat;
  included_summary : bool;
  included_active_turns : nat;
  included_history_hits : nat;
  notes : Notes
}.

Record Message : Type := mkMessage { m_role : text; m_content : text }.

Definition _rough_tokens (s : text) : nat := Nat.max 1 (length s / 4).

Definition sum_nat (l : list nat) : nat := fold_right Nat.add 0 l.

Definition _estimate_tokens (turns : list Turn) : nat :=
  sum_nat (map (fun t => _rough_tokens (t_content t)) turns).

Module AgentMemoryManager.

Record t : Type := mk {
  cfg : MemoryConfig;
  store : JsonlHistoryStore.t;
  summarizer : LlmSummarizer.t;
  session_id : text;
  active_turns : list Turn;
  rolling_summary : text
}.

(** The object and the world it runs in. *)
Record State : Type := mkState { self : t; world : World }.

Definition __init__ (cfg : MemoryConfig) (store : JsonlHistoryStore.t)
    (summarizer : LlmSummarizer.t) (session_id : text) : t :=
  mk cfg store summarizer session_id [] [].

Definition set_active (turns : list Turn) (m : t) : t :=
  mk (cfg m) (store m) (summarizer m) (session_id m) turns (rolling_summary m).

Definition set_summary (s : text) (m : t) : t :=
  mk (cfg m) (store m) (summarizer m) (session_id m) (active_turns m) s.

(** An operation of the world, run from the manager. *)
Definition in_world {A} (c : M World A) : M State A :=
  fun st =>
    let '(r, w) := c (world st) in (r, mkState (self st) w).

Definition update_self (f : t -> t) : M State unit :=
  m_modify (fun st => mkState (f (self st)) (world st)).

(** [ts] and [id] are the readings of [time.time()] and [uuid.uuid4().hex]
    taken by the call. *)
Definition _add_turn (role content ts id : text) : M State unit :=
  update_self (fun m => set_active (active_turns m ++ [mkTurn role content ts id]) m).

Definition add_user (content ts id : text) : M State unit :=
  _add_turn (tx "user") content ts id.

Definition add_assistant (content ts id : text) : M State unit :=
  _add_turn (tx "assistant") content ts id.

Definition _should_compact (m : t) : bool :=
  if (max_turns (cfg m) <=? Z.of_nat (length (active_turns m)))%Z then true
  else if (max_tokens (cfg m) <=? Z.of_nat (_estimate_tokens (active_turns m)))%Z
       then true
       else false.

Definition _compact : M State unit :=
  (do st <- m_get ;;
   let m := self st in
   match active_turns m with
   | [] => m_ret tt
   | _ :: _ =>
       run in_world (JsonlHistoryStore.append (store m) (session_id m)
                       (map turn_dict (active_turns m))) ;;
       let recent :=
         if 10 <? length (active_turns m)
         then slice_last 10 (active_turns m)
         else active_turns m in
       do new_summary <- in_world (LlmSummarizer.compact (summarizer m)
                                     (rolling_summary m) recent) ;;
       run update_self
             (set_summary (strip (slice_to (summary_max_chars (cfg m)) new_summary))) ;;
       update_self (set_active [])
   end)%m.

(** One line of the history block. *)
Definition render_hit (h : JsonlHistoryStore.Hit) : result text :=
  match value_get (tx "role") (JsonlHistoryStore.turn h) with
  | Exc e => Exc e
  | Ok r =>
      match value_get (tx "content") (JsonlHistoryStore.turn h) with
      | Exc e => Exc e
      | Ok c =>
          Ok (tx "[score=" ++ str_nat (JsonlHistoryStore.score h) ++ tx ".0] "
              ++ py_str r ++ tx ": " ++ py_str c)
      end
  end.

(** [_rough_tokens(h["turn"].get("content", ""))] *)
Definition hit_tokens (h : JsonlHistoryStore.Hit) : result nat :=
  match JsonlHistoryStore.turn h with
  | VDict d =>
      match py_len (default (VStr []) (dict_lookup (tx "content") d)) with
      | Ok n => Ok (Nat.max 1 (n / 4))
      | Exc e => Exc e
      end
  | _ => Exc AttributeError
  end.

Definition history_header : text :=
  tx "Potentially relevant history (treat as stale unless verified):" ++ nl.

Definition summary_header : text := tx "Rolling summary (state):" ++ nl.

Definition guardrails (c : MemoryConfig) : text :=
  tx "max_turns=" ++ str_int (max_turns c)
  ++ tx ", max_tokens=" ++ str_int (max_tokens c).

Definition build_messages (system_prompt user_message : text)
    (history_query : option text) : M State (list Message * PromptLedger) :=
  (do st0 <- m_get ;;
   run (if _should_compact (self st0) then _compact else m_ret tt) ;;
   do st <- m_get ;;
   let m := self st in
   do history_hits <-
     match history_query with
     | Some (c :: q) =>
         in_world (JsonlHistoryStore.keyword_search (store m) (session_id m)
                     (c :: q) (search_top_k (cfg m)))
     | _ => m_ret []
     end ;;
   let messages := [mkMessage (tx "system") (strip system_prompt)] in
   let messages :=
     match strip (rolling_summary m) with
     | [] => messages
     | _ :: _ =>
         messages ++ [mkMessage (tx "system")
                        (summary_header ++ strip (rolling_summary m))]
     end in
   let messages :=
     messages ++ map (fun t => mkMessage (t_role t) (t_content t)) (active_turns m) in
   do messages <-
     match history_hits with
     | [] => m_ret messages
     | _ :: _ =>
         do lines <- m_lift (result_map render_hit history_hits) ;;
         m_ret (messages ++ [mkMessage (tx "system")
                               (history_header ++ join (nl ++ nl) lines)])
     end ;;
   let messages := messages ++ [mkMessage (tx "user") user_message] in
   do hit_estimates <- m_lift (result_map hit_tokens history_hits) ;;
   let token_estimate :=
     _rough_tokens system_prompt
     + _rough_tokens (rolling_summary m)
     + _estimate_tokens (active_turns m)
     + sum_nat hit_estimates
     + _rough_tokens user_message in
   let ledger :=
     mkLedger (session_id m) token_estimate
       (negb (text_eqb (strip (rolling_summary m)) []))
       (length (active_turns m))
       (length history_hits)
       (mkNotes history_query (guardrails (cfg m))) in
   m_ret (messages, ledger))%m.

End AgentMemoryManager.

(** * Vocabulary of the statements

    The definitions below name what the theorems speak about: the text of
    the archive, the steps of [build_messages], the ranking of the search,
    and a small session on which the theorems are run. *)

Import JsonlHistoryStore.
Import AgentMemoryManager.

(** What [append] writes for one turn. *)
Definition record_line (v : value) : text := json_dumps v ++ nl.

(** What [append] writes for a batch. *)
Definition records_text (turns : list value) : text :=
  concat (map record_line turns).

(** The slice [_compact] hands to the summarizer. *)
Definition recent_slice (turns : list Turn) : list Turn :=
  if 10 <? length turns then slice_last 10 turns else turns.

(** The outcome of [_compact], by cases on its two calls. *)
Definition compact_outcome (st : State) : result unit * State :=
  let m := self st in
  match active_turns m with
  | [] => (Ok tt, st)
  | _ :: _ =>
      match JsonlHistoryStore.append (store m) (session_id m)
              (map turn_dict (active_turns m)) (world st) with
      | (Exc e, w1) => (Exc e, mkState m w1)
      | (Ok _, w1) =>
          match LlmSummarizer.compact (summarizer m) (rolling_summary m)
                  (recent_slice (active_turns m)) w1 with
          | (Exc e, w2) => (Exc e, mkState m w2)
          | (Ok s, w2) =>
              (Ok tt,
               mkState (mk (cfg m) (store m) (summarizer m) (session_id m) []
                          (strip (slice_to (summary_max_chars (cfg m)) s)))
                       w2)
          end
      end
  end.

(** The first statement of [build_messages]. *)
Definition compaction_step (st : State) : result unit * State :=
  if _should_compact (self st) then _compact st else (Ok tt, st).

(** The search of [build_messages]: run only for a non-empty query. *)
Definition history_step (hq : option text) (st : State)
  : result (list JsonlHistoryStore.Hit) * State :=
  match hq with
  | Some (c :: q) =>
      in_world (JsonlHistoryStore.keyword_search (store (self st))
                  (session_id (self st)) (c :: q) (search_top_k (cfg (self st)))) st
  | _ => (Ok [], st)
  end.

(** The message of the rolling summary, when there is one. *)
Definition summary_block (m : AgentMemoryManager.t) : list Message :=
  match strip (rolling_summary m) with
  | [] => []
  | _ :: _ => [mkMessage (tx "system")
                 (tx "Rolling summary (state):" ++ nl ++ strip (rolling_summary m))]
  end.

(** The message of the history hits, when there are some. *)
Definition history_block (lines : list text) : list Message :=
  match lines with
  | [] => []
  | _ :: _ =>
      [mkMessage (tx "system")
         (tx "Potentially relevant history (treat as stale unless verified):"
          ++ nl ++ join (nl ++ nl) lines)]
  end.

(** Messages and ledger, from the manager after compaction and the hits. *)
Definition assemble (sp um : text) (hq : option text) (m : AgentMemoryManager.t)
    (hits : list JsonlHistoryStore.Hit) : result (list Message * PromptLedger) :=
  match result_map render_hit hits with
  | Exc e => Exc e
  | Ok lines =>
      match result_map hit_tokens hits with
      | Exc e => Exc e
      | Ok ests =>
          Ok (mkMessage (tx "system") (strip sp)
                :: summary_block m
                ++ map (fun t => mkMessage (t_role t) (t_content t)) (active_turns m)
                ++ history_block lines
                ++ [mkMessage (tx "user") um],
              mkLedger (session_id m)
                (_rough_tokens sp + _rough_tokens (rolling_summary m)
                 + _estimate_tokens (active_turns m) + sum_nat ests
                 + _rough_tokens um)
                (negb (text_eqb (strip (rolling_summary m)) []))
                (length (active_turns m)) (length hits)
                (mkNotes hq (guardrails (cfg m))))
      end
  end.

(** The line of the history block for one hit. *)
Definition rendered (h : JsonlHistoryStore.Hit) (line : text) : Prop :=
  exists role content : value,
    value_get (tx "role") (JsonlHistoryStore.turn h) = Ok role
    /\ value_get (tx "content") (JsonlHistoryStore.turn h) = Ok content
    /\ line = tx "[score=" ++ str_nat (JsonlHistoryStore.score h) ++ tx ".0] "
              ++ py_str role ++ tx ": " ++ py_str content.

(** What [build_messages] returns, block by block, for the manager [m] it
    leaves behind and the hits of its search. *)
Definition in_fixed_order (sp um : text) (m : AgentMemoryManager.t)
    (hits : list JsonlHistoryStore.Hit) (lines : list text)
    (msgs : list Message) : Prop :=
  Forall2 rendered hits lines
  /\ msgs =
     [mkMessage (tx "system") (strip sp)]
     ++ match strip (rolling_summary m) with
        | [] => []
        | _ :: _ => [mkMessage (tx "system")
                       (tx "Rolling summary (state):" ++ nl
                        ++ strip (rolling_summary m))]
        end
     ++ map (fun t => mkMessage (t_role t) (t_content t)) (active_turns m)
     ++ match hits with
        | [] => []
        | _ :: _ =>
            [mkMessage (tx "system")
               (tx "Potentially relevant history (treat as stale unless verified):"
                ++ nl ++ join (nl ++ nl) lines)]
        end
     ++ [mkMessage (tx "user") um].

(** The world after [read_all] found and opened the file [p]. *)
Definition opened (p : text) (w : World) : World :=
  mkWorld (files w) (write_budget w) (trace w ++ [EvExists p] ++ [EvOpenRead p]).

Definition has_score (n : nat) (h : Hit) : bool := score h =? n.

(** Descending order of the scores. *)
Definition desc (a b : Hit) : Prop := score b <= score a.

(** The text a row is searched in. *)
Definition content_text (row : value) : text :=
  match row with
  | VDict d =>
      match dict_lookup (tx "content") d with
      | Some (VStr s) => s
      | _ => []
      end
  | _ => []
  end.

(** A row the loop of [keyword_search] can score: a dictionary whose
    content is a string, is missing, or is falsy. *)
Definition scorable (row : value) : bool :=
  match row with
  | VDict d =>
      match dict_lookup (tx "content") d with
      | None => true
      | Some (VStr _) => true
      | Some v => negb (truthy v)
      end
  | _ => false
  end.

(** The rows with at least one occurrence, in the order of the archive. *)
Definition positive_hits (q : text) (rows : list value) : list Hit :=
  List.filter (fun h => 0 <? score h)
    (map (fun row => mkHit (str_count (lower (content_text row)) q) row) rows).

(** [ranked] lists the rows with a positive score, highest score first,
    rows of equal score in the order of the archive. *)
Definition ranking (q : text) (rows : list value) (ranked : list Hit) : Prop :=
  ranked ≡ₚ positive_hits q rows
  /\ StronglySorted desc ranked
  /\ (forall n : nat,
        List.filter (has_score n) ranked
        = List.filter (has_score n) (positive_hits q rows))
  /\ Forall (fun h => 0 < score h
                      /\ score h = str_count (lower (content_text (turn h))) q
                      /\ In (turn h) rows) ranked.

Definition no_newline (s : text) : bool :=
  forallb (fun c => negb (code c =? 10)) s.

(** The [repr] of a finite float: number characters only, matching the
    number pattern with a fraction or an exponent. *)
Definition is_float_repr (lit : text) : bool :=
  forallb is_num_char lit
  && match parse_number lit with
     | Some (VFloat _) => true
     | _ => false
     end.

(** The text [json.dumps] writes for the dictionary of a turn, and what
    follows it. *)
Definition turn_json (t : Turn) (rest : text) : text :=
  tx "{"
  ++ dq :: escape (tx "role") ++ dq :: tx ": "
  ++ (dq :: escape (t_role t) ++ dq :: []) ++ tx ", "
  ++ dq :: escape (tx "content") ++ dq :: tx ": "
  ++ (dq :: escape (t_content t) ++ dq :: []) ++ tx ", "
  ++ dq :: escape (tx "ts") ++ dq :: tx ": " ++ t_ts t ++ tx ", "
  ++ dq :: escape (tx "id") ++ dq :: tx ": "
  ++ (dq :: escape (t_id t) ++ dq :: []) ++ tx "}" ++ rest.

(** One [append] call per batch, in order. *)
Fixpoint append_batches (s : JsonlHistoryStore.t) (sid : text)
    (batches : list (list value)) : M World unit :=
  match batches with
  | [] => m_ret tt
  | b :: rest => (run append s sid b ;; append_batches s sid rest)%m
  end.

(** The row read back carries the role, the content and the identifier
    of the turn. *)
Definition same_turn (t : Turn) (row : value) : Prop :=
  value_get (tx "role") row = Ok (VStr (t_role t))
  /\ value_get (tx "content") row = Ok (VStr (t_content t))
  /\ value_get (tx "id") row = Ok (VStr (t_id t)).


(** ** A small session, used to run the theorems *)

Module Demo.

Definition the_store : JsonlHistoryStore.t := JsonlHistoryStore.mk (tx ".agent_history").

Definition steady : LlmSummarizer.t :=
  LlmSummarizer.mk (fun _ _ => Ok (tx "  Goal: find the cat  ")).

Definition broken : LlmSummarizer.t :=
  LlmSummarizer.mk (fun _ _ => Exc (ClientError (tx "timeout"))).

Definition turn1 : Turn :=
  mkTurn (tx "user") (tx "the cat sat") (tx "1730750000.5") (tx "a1").
Definition turn2 : Turn :=
  mkTurn (tx "assistant") (tx "a cat ran, CAT!") (tx "1730750001.25") (tx "a2").
Definition turn3 : Turn :=
  mkTurn (tx "user") (tx "no match here") (tx "1730750002.0") (tx "a3").
Definition turn4 : Turn :=
  mkTurn (tx "assistant") (tx "Cat") (tx "1730750003.75") (tx "a4").

Definition empty_world : World := mkWorld ∅ None [].

Definition manager (max : Z) (sm : LlmSummarizer.t) (turns : list Turn)
    (summary : text) : AgentMemoryManager.t :=
  AgentMemoryManager.mk (mkConfig max 2500 5 1400) the_store sm (tx "s1")
    turns summary.

(** Two turns are active and the threshold is two. *)
Definition due (sm : LlmSummarizer.t) (w : World) : State :=
  mkState (manager 2 sm [turn1; turn2] []) w.

(** The archive of session s1 holds the four turns. *)
Definition archived : World :=
  snd (append the_store (tx "s1") (map turn_dict [turn1; turn2; turn3; turn4])
         empty_world).

(** One turn is active, over an archive of four. *)
Definition later : State :=
  mkState (manager 5 steady [turn3] (tx "Goal: find the cat")) archived.

(** An archive whose second line is not JSON. *)
Definition damaged : World :=
  mkWorld
    {[ _path the_store (tx "s1") :=
         json_dumps (turn_dict turn1) ++ nl
         ++ tx "{role: user" ++ nl
         ++ json_dumps (turn_dict turn2) ++ nl ]}
    None [].

End Demo.

(** ** Vocabulary of the further properties *)


(** A session identifier that names a file: no path separator in it. *)
Definition plain_name (sid : text) : bool :=
  forallb (fun c => negb (code c =? 47)) sid.


(** A manager whose rolling summary has no surrounding whitespace. *)
Definition trimmed (m : AgentMemoryManager.t) : Prop :=
  strip (rolling_summary m) = rolling_summary m.

(** The fields [__init__] sets once and for all. *)
Definition same_setup (m m' : AgentMemoryManager.t) : Prop :=
  cfg m' = cfg m /\ store m' = store m /\ summarizer m' = summarizer m
  /\ session_id m' = session_id m.


(** A hit [build_messages] can render: its turn is a dictionary whose
    content is a string. *)
Definition renderable (h : Hit) : Prop :=
  exists (d : list (text * value)) (s : text),
    turn h = VDict d /\ dict_lookup (tx "content") d = Some (VStr s).

(** The ledger with the query of its notes forgotten. *)
Definition without_query (l : PromptLedger) : PromptLedger :=
  mkLedger (l_session_id l) (token_estimate l) (included_summary l)
    (included_active_turns l) (included_history_hits l)
    (mkNotes None (n_guardrails (notes l))).


(** The manager with another summarizer: a client that answers
    differently on the next call. *)
Definition with_summarizer (sm : LlmSummarizer.t) (m : AgentMemoryManager.t)
  : AgentMemoryManager.t :=
  AgentMemoryManager.mk (cfg m) (store m) sm (session_id m) (active_turns m)
    (rolling_summary m).


(** [MemoryConfig()]: the defaults of the dataclass. *)
Definition default_config : MemoryConfig := mkConfig 5 2500 5 1400.


(** Every file of [w] is still there in [w'], with its old text at the
    front. *)
Definition extends (w w' : World) : Prop :=
  forall (p old : text),
    files w !! p = Some old ->
    exists more : text, files w' !! p = Some (old ++ more).


(** ** More states of the small session *)

Module Demo2.

(** A manager with the default configuration and five active turns. *)
Definition full : State :=
  mkState (AgentMemoryManager.mk default_config Demo.the_store Demo.steady (tx "s1")
             [Demo.turn1; Demo.turn2; Demo.turn3; Demo.turn4; Demo.turn1] [])
          Demo.empty_world.

(** A manager just built, over an empty disk. *)
Definition fresh : State :=
  mkState (__init__ default_config Demo.the_store Demo.steady (tx "s1"))
          Demo.empty_world.


(** A configuration whose summary cap is negative. *)
Definition odd_cap : State :=
  mkState (AgentMemoryManager.mk (mkConfig 2 2500 5 (-6)) Demo.the_store Demo.steady
             (tx "s1") [Demo.turn1; Demo.turn2] [])
          Demo.empty_world.

End Demo2.

(** * Lemmas and theorems *)

(** ** The operations on small inputs *)

Example strip_trims_both_ends : strip (tx "  a b  ") = tx "a b".
Proof. reflexivity. Qed.

Example lower_folds_case : lower (tx "A Cat") = tx "a cat".
Proof. reflexivity. Qed.

Example count_does_not_overlap : str_count (tx "aaaa") (tx "aa") = 2.
Proof. reflexivity. Qed.

Example slice_to_negative_counts_from_end : slice_to (-1) [1; 2; 3] = [1; 2].
Proof. reflexivity. Qed.

Example loads_accepts_nesting :
  json_loads (tx " [1, 2.5, [], {}, null] ")
  = Ok (VList [VInt 1; VFloat (tx "2.5"); VList []; VDict []; VNone]).
Proof. reflexivity. Qed.

Example loads_refuses_trailing_comma : json_loads (tx "[1,]") = Exc JSONDecodeError.
Proof. reflexivity. Qed.

Example rough_tokens_of_short_text : _rough_tokens (tx "abc") = 1.
Proof. reflexivity. Qed.

(** Three archived turns, one without the word: the search for it returns
    the two others. *)
Example search_finds_two_of_three :
  let turns := [mkTurn (tx "user") (tx "the cat sat") (tx "1.5") (tx "a");
                mkTurn (tx "user") (tx "a cat ran") (tx "2.5") (tx "b");
                mkTurn (tx "user") (tx "no match here") (tx "3.5") (tx "c")] in
  let w := snd (append Demo.the_store (tx "s") (map turn_dict turns)
                  Demo.empty_world) in
  fst (keyword_search Demo.the_store (tx "s") (tx "cat") 5 w)
  = Ok [mkHit 1 (turn_dict (mkTurn (tx "user") (tx "the cat sat") (tx "1.5") (tx "a")));
        mkHit 1 (turn_dict (mkTurn (tx "user") (tx "a cat ran") (tx "2.5") (tx "b")))].
Proof. vm_compute. reflexivity. Qed.

(** With [max_turns] at two, the second turn makes the next
    [build_messages] compact: no active turn is left and the archive holds
    the two records. *)
Example threshold_triggers_compaction :
  let st := Demo.due Demo.steady Demo.empty_world in
  let out := build_messages (tx "sys") (tx "hi") None st in
  (included_active_turns <$> (snd <$> match fst out with
                                      | Ok r => Some r
                                      | Exc _ => None
                                      end)) = Some 0
  /\ fst (read_all Demo.the_store (tx "s1") (world (snd out)))
     = Ok (map turn_dict [Demo.turn1; Demo.turn2]).
Proof. vm_compute. split; reflexivity. Qed.


(** ** The token heuristic *)

Lemma rough_tokens_pos (s : text) : 1 <= _rough_tokens s.
Proof. unfold _rough_tokens. lia. Qed.

Lemma rough_tokens_mono (a b : text) :
  length a <= length b -> _rough_tokens a <= _rough_tokens b.
Proof.
  intros H. unfold _rough_tokens.
  pose proof (Nat.Div0.div_le_mono _ _ 4 H). lia.
Qed.

Lemma sum_nat_app (l1 l2 : list nat) :
  sum_nat (l1 ++ l2) = sum_nat l1 + sum_nat l2.
Proof. induction l1 as [|x l1 IH]; simpl; [reflexivity | rewrite IH; lia]. Qed.

Lemma estimate_tokens_app (a b : list Turn) :
  _estimate_tokens (a ++ b) = _estimate_tokens a + _estimate_tokens b.
Proof. unfold _estimate_tokens. rewrite map_app. apply sum_nat_app. Qed.

Lemma estimate_tokens_cons (t : Turn) (l : list Turn) :
  _estimate_tokens (t :: l) = _rough_tokens (t_content t) + _estimate_tokens l.
Proof. reflexivity. Qed.

Lemma estimate_tokens_ge_length (turns : list Turn) :
  length turns <= _estimate_tokens turns.
Proof.
  induction turns as [|t l IH]; [simpl; lia|].
  rewrite estimate_tokens_cons. pose proof (rough_tokens_pos (t_content t)).
  simpl. lia.
Qed.

(** C4. [_should_compact] is a function of the manager alone; it holds
    exactly when the number of active turns reaches [max_turns] or the
    token estimate reaches [max_tokens]; the estimate is the sum over the
    active turns of max(1, length / 4), and it does not decrease when the
    text of a turn gets longer. *)
Theorem should_compact_spec (m : AgentMemoryManager.t) :
  (_should_compact m = true <->
     (max_turns (cfg m) <= Z.of_nat (length (active_turns m)))%Z \/
     (max_tokens (cfg m) <= Z.of_nat (_estimate_tokens (active_turns m)))%Z)
  /\ _estimate_tokens (active_turns m)
     = sum_nat (map (fun t => Nat.max 1 (length (t_content t) / 4)) (active_turns m))
  /\ (forall a b : text, length a <= length b -> _rough_tokens a <= _rough_tokens b)
  /\ (forall (pre post : list Turn) (t t' : Turn),
        length (t_content t) <= length (t_content t') ->
        _estimate_tokens (pre ++ t :: post) <= _estimate_tokens (pre ++ t' :: post)).
Proof.
  split; [|split; [reflexivity | split]].
  - unfold _should_compact.
    destruct (Z.leb_spec (max_turns (cfg m)) (Z.of_nat (length (active_turns m))));
      [tauto|].
    destruct (Z.leb_spec (max_tokens (cfg m))
                (Z.of_nat (_estimate_tokens (active_turns m)))); [tauto|].
    split; [discriminate | lia].
  - exact rough_tokens_mono.
  - intros pre post t t' H.
    rewrite !estimate_tokens_app, !estimate_tokens_cons.
    pose proof (rough_tokens_mono _ _ H). lia.
Qed.

(** C9. With no active turn, [_compact] returns without changing
    anything: the manager, the files, the write budget and the trace of
    calls to the store and to the model client are all as before. *)
Theorem compact_empty_noop (st : State) :
  active_turns (self st) = [] -> _compact st = (Ok tt, st).
Proof.
  intros H. unfold _compact, m_bind, m_get. rewrite H. reflexivity.
Qed.



(** ** The archive file under [append] *)

Lemma write_turns_files (p : text) (turns : list value) :
  forall (w w' : World) (old : text),
    files w !! p = Some old ->
    JsonlHistoryStore.write_turns p turns w = (Ok tt, w') ->
    files w' = <[p := old ++ records_text turns]> (files w).
Proof.
  induction turns as [|t rest IH]; intros w w' old Hold Hrun.
  - cbn in Hrun. injection Hrun as <-. unfold records_text. simpl.
    rewrite app_nil_r. symmetry. by apply insert_id.
  - cbn in Hrun. unfold m_bind, file_write in Hrun.
    destruct (write_budget w) as [[|b]|] eqn:Hb; try discriminate.
    + eapply IH in Hrun; [|simpl; apply lookup_insert_eq].
      rewrite Hrun. simpl. rewrite insert_insert_eq, Hold. simpl.
      unfold records_text. simpl. fold (record_line t). unfold record_line.
      by rewrite <- !app_assoc.
    + eapply IH in Hrun; [|simpl; apply lookup_insert_eq].
      rewrite Hrun. simpl. rewrite insert_insert_eq, Hold. simpl.
      unfold records_text. simpl. unfold record_line.
      by rewrite <- !app_assoc.
Qed.

Lemma write_turns_unlimited (p : text) (turns : list value) :
  forall w : World,
    write_budget w = None ->
    exists w', JsonlHistoryStore.write_turns p turns w = (Ok tt, w')
               /\ write_budget w' = None.
Proof.
  induction turns as [|t rest IH]; intros w Hb.
  - exists w. split; [reflexivity | exact Hb].
  - cbn. unfold m_bind, file_write. rewrite Hb. simpl.
    apply IH. reflexivity.
Qed.

Lemma append_files (s : JsonlHistoryStore.t) (sid : text) (turns : list value)
    (w w' : World) :
  JsonlHistoryStore.append s sid turns w = (Ok tt, w') ->
  files w' = <[JsonlHistoryStore._path s sid :=
                 default [] (files w !! JsonlHistoryStore._path s sid)
                 ++ records_text turns]> (files w).
Proof.
  unfold JsonlHistoryStore.append, m_bind, open_append. intros H.
  eapply write_turns_files in H; [|simpl; apply lookup_insert_eq].
  rewrite H. simpl. by rewrite insert_insert_eq.
Qed.

Lemma append_unlimited (s : JsonlHistoryStore.t) (sid : text) (turns : list value)
    (w : World) :
  write_budget w = None ->
  exists w', JsonlHistoryStore.append s sid turns w = (Ok tt, w')
             /\ write_budget w' = None.
Proof.
  intros Hb. unfold JsonlHistoryStore.append, m_bind, open_append.
  apply write_turns_unlimited. exact Hb.
Qed.

(** ** [_compact], case by case *)

Lemma summarizer_compact_run (sm : LlmSummarizer.t) (prev : text)
    (recent : list Turn) (w : World) :
  LlmSummarizer.compact sm prev recent w
  = (match LlmSummarizer.llm_client sm LlmSummarizer.system_prompt
             (LlmSummarizer.user_prompt prev recent) with
     | Ok out => Ok (strip out)
     | Exc e => Exc e
     end,
     mkWorld (files w) (write_budget w)
       (trace w ++ [EvLlm LlmSummarizer.system_prompt
                      (LlmSummarizer.user_prompt prev recent)])).
Proof.
  unfold LlmSummarizer.compact, m_bind, log, m_modify, m_lift, m_ret.
  destruct (LlmSummarizer.llm_client sm _ _); reflexivity.
Qed.

Lemma compact_unfold (st : State) : _compact st = compact_outcome st.
Proof.
  destruct st as [m w].
  unfold _compact, compact_outcome, m_bind, m_get, in_world, update_self, m_modify.
  cbv beta iota zeta delta [self world]. fold (recent_slice (active_turns m)).
  destruct (active_turns m) as [|t ts] eqn:Ha; [reflexivity|].
  rewrite <- Ha.
  destruct (JsonlHistoryStore.append _ _ _ w) as [[[]|e] w1]; [|reflexivity].
  destruct (LlmSummarizer.compact _ _ _ w1) as [[s|e] w2]; reflexivity.
Qed.

Lemma compact_nonempty (st : State) :
  active_turns (self st) <> [] ->
  _compact st =
  let m := self st in
  match JsonlHistoryStore.append (store m) (session_id m)
          (map turn_dict (active_turns m)) (world st) with
  | (Exc e, w1) => (Exc e, mkState m w1)
  | (Ok _, w1) =>
      match LlmSummarizer.compact (summarizer m) (rolling_summary m)
              (recent_slice (active_turns m)) w1 with
      | (Exc e, w2) => (Exc e, mkState m w2)
      | (Ok s, w2) =>
          (Ok tt,
           mkState (mk (cfg m) (store m) (summarizer m) (session_id m) []
                      (strip (slice_to (summary_max_chars (cfg m)) s)))
                   w2)
      end
  end.
Proof.
  intros Hne. rewrite compact_unfold. unfold compact_outcome. cbv zeta.
  destruct (active_turns (self st)) as [|t ts]; [congruence | reflexivity].
Qed.



(** ** Lengths under [strip] and slicing *)

Lemma lstrip_length (s : text) : length (lstrip s) <= length s.
Proof.
  induction s as [|c r IH]; simpl; [lia|].
  destruct (isspace c); simpl; lia.
Qed.

Lemma strip_length (s : text) : length (strip s) <= length s.
Proof.
  unfold strip, rstrip. rewrite length_rev.
  etransitivity; [apply lstrip_length|]. rewrite length_rev.
  apply lstrip_length.
Qed.

Lemma slice_to_length {A} (n : Z) (l : list A) :
  (0 <= n)%Z -> (Z.of_nat (length (slice_to n l)) <= n)%Z.
Proof.
  intros Hn. unfold slice_to.
  destruct (Z.leb_spec 0 n); [|lia].
  rewrite length_take. lia.
Qed.

Lemma recent_slice_last_ten (turns : list Turn) :
  recent_slice turns = drop (length turns - 10) turns.
Proof.
  unfold recent_slice, slice_last.
  destruct (Nat.ltb_spec 10 (length turns)) as [H|H]; [reflexivity|].
  replace (length turns - 10) with 0 by lia. reflexivity.
Qed.

(** C2. On a non-empty active set: when the archival append succeeded
    and the model client raises, [_compact] raises that exception and the
    rolling summary is unchanged; when the append raises, [_compact]
    raises that exception with the active set and the summary unchanged;
    and [build_messages] surfaces an exception of [_compact] as it is. *)
Theorem compact_failure_keeps_state (st : State) (t : Turn) (ts : list Turn) :
  active_turns (self st) = t :: ts ->
  let m := self st in
  let archive :=
    JsonlHistoryStore.append (store m) (session_id m)
      (map turn_dict (active_turns m)) in
  (forall (w1 : World) (e : exn),
      archive (world st) = (Ok tt, w1) ->
      LlmSummarizer.llm_client (summarizer m) LlmSummarizer.system_prompt
        (LlmSummarizer.user_prompt (rolling_summary m)
           (drop (length (active_turns m) - 10) (active_turns m))) = Exc e ->
      exists st', _compact st = (Exc e, st')
                  /\ rolling_summary (self st') = rolling_summary m
                  /\ files (world st') = files w1)
  /\ (forall (w1 : World) (e : exn),
         archive (world st) = (Exc e, w1) ->
         exists st', _compact st = (Exc e, st')
                     /\ active_turns (self st') = active_turns m
                     /\ rolling_summary (self st') = rolling_summary m)
  /\ (forall (e : exn) (st' : State) (sp um : text) (hq : option text),
         _should_compact m = true ->
         _compact st = (Exc e, st') ->
         build_messages sp um hq st = (Exc e, st')).
Proof.
  intros Ha m archive. subst m archive.
  assert (Hne : active_turns (self st) <> []) by (rewrite Ha; discriminate).
  repeat split.
  - intros w1 e Happ Hllm. rewrite (compact_nonempty st Hne). cbv zeta.
    rewrite Happ, summarizer_compact_run, recent_slice_last_ten, Hllm.
    eexists. split; [reflexivity|]. split; reflexivity.
  - intros w1 e Happ. rewrite (compact_nonempty st Hne). cbv zeta.
    rewrite Happ.
    eexists. split; [reflexivity|]. split; reflexivity.
  - intros e st' sp um hq Hs Hc.
    unfold build_messages, m_bind, m_get. rewrite Hs, Hc. reflexivity.
Qed.

Ltac compact_success H Hne :=
  rewrite (compact_nonempty _ Hne) in H; cbv zeta in H;
  destruct (JsonlHistoryStore.append _ _ _ _) as [[[]|?e] ?w1] eqn:?Happ;
    [|discriminate H];
  rewrite summarizer_compact_run in H;
  destruct (LlmSummarizer.llm_client _ _ _) as [?out|?e] eqn:?Hllm;
    [|discriminate H];
  injection H as <-; cbn [world self active_turns rolling_summary].



(** ** [build_messages], step by step *)

Lemma in_world_self {A} (c : M World A) (st st' : State) (r : result A) :
  in_world c st = (r, st') -> self st' = self st /\ c (world st) = (r, world st').
Proof.
  unfold in_world. destruct (c (world st)) as [r0 w]. intros H.
  injection H as <- <-. split; reflexivity.
Qed.

Lemma history_step_self (hq : option text) (st st' : State)
    (r : result (list JsonlHistoryStore.Hit)) :
  history_step hq st = (r, st') -> self st' = self st.
Proof.
  unfold history_step. destruct hq as [[|c q]|]; intros H;
    try (by injection H as <- <-).
  by apply in_world_self in H as [? _].
Qed.

Lemma result_map_length {A B} (f : A -> result B) (l : list A) (l' : list B) :
  result_map f l = Ok l' -> length l' = length l.
Proof.
  revert l'. induction l as [|x l IH]; intros l' H; simpl in H.
  - by injection H as <-.
  - destruct (f x); [|discriminate].
    destruct (result_map f l); [|discriminate].
    injection H as <-. simpl. f_equal. by apply IH.
Qed.

Lemma build_messages_unfold (sp um : text) (hq : option text) (st : State) :
  build_messages sp um hq st =
  match compaction_step st with
  | (Exc e, st1) => (Exc e, st1)
  | (Ok _, st1) =>
      match history_step hq st1 with
      | (Exc e, st2) => (Exc e, st2)
      | (Ok hits, st2) => (assemble sp um hq (self st1) hits, st2)
      end
  end.
Proof.
  unfold build_messages, compaction_step, m_bind, m_get.
  assert (Hstep : (if _should_compact (self st) then _compact else m_ret tt) st
                  = (if _should_compact (self st) then _compact st else (Ok tt, st)))
    by (destruct (_should_compact (self st)); reflexivity).
  rewrite Hstep. clear Hstep.
  destruct (if _should_compact (self st) then _compact st else (Ok tt, st))
    as [[[]|e] st1]; [|reflexivity].
  assert (Hh : match hq with
               | Some (c :: q) =>
                   in_world (JsonlHistoryStore.keyword_search (store (self st1))
                     (session_id (self st1)) (c :: q) (search_top_k (cfg (self st1))))
               | _ => m_ret []
               end st1 = history_step hq st1)
    by (unfold history_step; destruct hq as [[|c q]|]; reflexivity).
  rewrite Hh. clear Hh.
  destruct (history_step hq st1) as [[hits|e] st2] eqn:Hhist; [|reflexivity].
  unfold assemble, summary_block, history_block, m_lift, m_ret.
  destruct hits as [|h hits].
  - simpl. destruct (strip (rolling_summary (self st1))); simpl;
      rewrite <- ?app_assoc; reflexivity.
  - destruct (result_map render_hit (h :: hits)) as [lines|e] eqn:Hl; [|reflexivity].
    destruct (result_map hit_tokens (h :: hits)) as [ests|e]; [|reflexivity].
    destruct lines as [|l lines];
      [apply result_map_length in Hl; discriminate|].
    destruct (strip (rolling_summary (self st1))); simpl;
      rewrite <- ?app_assoc; reflexivity.
Qed.



Lemma compact_active_cases (st st' : State) (r : result unit) :
  _compact st = (r, st') ->
  active_turns (self st') = active_turns (self st)
  \/ (r = Ok tt /\ active_turns (self st') = []).
Proof.
  intros Hc. rewrite compact_unfold in Hc. unfold compact_outcome in Hc.
  cbv zeta in Hc.
  destruct (active_turns (self st)) as [|t ts] eqn:Ha.
  { injection Hc as <- <-. left. exact Ha. }
  destruct (JsonlHistoryStore.append _ _ _ _) as [[[]|e] w1].
  2:{ injection Hc as <- <-. left. exact Ha. }
  destruct (LlmSummarizer.compact _ _ _ _) as [[s|e] w2].
  - injection Hc as <- <-. right. split; reflexivity.
  - injection Hc as <- <-. left. exact Ha.
Qed.

Lemma build_messages_active_cases (sp um : text) (hq : option text)
    (st st' : State) (r : result (list Message * PromptLedger)) :
  build_messages sp um hq st = (r, st') ->
  active_turns (self st') = active_turns (self st)
  \/ (_should_compact (self st) = true /\ active_turns (self st') = []).
Proof.
  rewrite build_messages_unfold. unfold compaction_step. intros H.
  assert (Hstep : forall st1 r1,
             (if _should_compact (self st) then _compact st else (Ok tt, st))
             = (r1, st1) ->
             active_turns (self st1) = active_turns (self st)
             \/ (_should_compact (self st) = true /\ active_turns (self st1) = [])).
  { intros st1 r1 Hs. destruct (_should_compact (self st)).
    - destruct (compact_active_cases _ _ _ Hs) as [Hk | [_ Hk]]; auto.
    - injection Hs as _ <-. by left. }
  destruct (if _should_compact (self st) then _compact st else (Ok tt, st))
    as [[[]|e] st1] eqn:Hs.
  - destruct (history_step hq st1) as [[hits|e] st2] eqn:Hh;
      injection H as _ <-; rewrite (history_step_self _ _ _ _ Hh);
      exact (Hstep _ _ eq_refl).
  - injection H as _ <-. exact (Hstep _ _ eq_refl).
Qed.

(** C5. A successful [_compact] on a non-empty active set appends the
    line of every active turn, in order, to the file of the session and
    leaves the active set empty, so its count and estimate are zero;
    whatever its outcome, [_compact] leaves the active set whole or empty;
    a recorded turn makes the count and the estimate grow; and
    [build_messages] leaves the active set as it was unless it compacted. *)
Theorem compact_archives_and_clears (st : State) :
  let m := self st in
  let p := JsonlHistoryStore._path (store m) (session_id m) in
  (forall st' : State,
      active_turns m <> [] ->
      _compact st = (Ok tt, st') ->
      files (world st')
      = <[p := default [] (files (world st) !! p)
               ++ concat (map (fun t => json_dumps (turn_dict t) ++ nl) (active_turns m))]>
          (files (world st))
      /\ active_turns (self st') = []
      /\ length (active_turns (self st')) = 0
      /\ _estimate_tokens (active_turns (self st')) = 0)
  /\ (forall (r : result unit) (st' : State),
         _compact st = (r, st') ->
         active_turns (self st') = active_turns m
         \/ (r = Ok tt /\ active_turns (self st') = []))
  /\ (forall role content ts id : text,
         exists st', _add_turn role content ts id st = (Ok tt, st')
           /\ active_turns (self st') = active_turns m ++ [mkTurn role content ts id]
           /\ length (active_turns (self st')) = S (length (active_turns m))
           /\ _estimate_tokens (active_turns m) < _estimate_tokens (active_turns (self st'))
           /\ world st' = world st)
  /\ (forall (sp um : text) (hq : option text)
             (r : result (list Message * PromptLedger)) (st' : State),
         build_messages sp um hq st = (r, st') ->
         active_turns (self st') = active_turns m
         \/ (_should_compact m = true /\ active_turns (self st') = [])).
Proof.
  intros m p. subst m p. split; [|split; [|split]].
  - intros st' Hne Hc. compact_success Hc Hne.
    repeat split.
    apply append_files in Happ. rewrite Happ.
    unfold records_text, record_line. by rewrite map_map.
  - intros r st'. apply compact_active_cases.
  - intros role content ts id. eexists. split; [reflexivity|].
    cbn [self world active_turns set_active].
    repeat split.
    + rewrite length_app. simpl. lia.
    + rewrite estimate_tokens_app, estimate_tokens_cons.
      pose proof (rough_tokens_pos content). simpl. lia.
  - intros sp um hq r st'. apply build_messages_active_cases.
Qed.



Lemma build_messages_ok (sp um : text) (hq : option text) (st st' : State)
    (msgs : list Message) (ledger : PromptLedger) :
  build_messages sp um hq st = (Ok (msgs, ledger), st') ->
  exists st1 hits,
    compaction_step st = (Ok tt, st1)
    /\ history_step hq st1 = (Ok hits, st')
    /\ self st' = self st1
    /\ assemble sp um hq (self st') hits = Ok (msgs, ledger).
Proof.
  rewrite build_messages_unfold. intros H.
  destruct (compaction_step st) as [[[]|e] st1]; [|discriminate].
  destruct (history_step hq st1) as [[hits|e] st2] eqn:Hh; [|discriminate].
  injection H as H <-. exists st1, hits.
  pose proof (history_step_self _ _ _ _ Hh) as Hs.
  split; [reflexivity|]. split; [exact Hh|]. split; [exact Hs | by rewrite Hs].
Qed.

Lemma render_hits_rendered (hits : list JsonlHistoryStore.Hit) :
  forall lines, result_map render_hit hits = Ok lines -> Forall2 rendered hits lines.
Proof.
  induction hits as [|h hits IH]; intros lines H; simpl in H.
  - injection H as <-. constructor.
  - destruct (render_hit h) as [l|] eqn:Hr; [|discriminate].
    destruct (result_map render_hit hits) as [ls|]; [|discriminate].
    injection H as <-. constructor; [|by apply IH].
    unfold render_hit in Hr.
    destruct (value_get (tx "role") _) as [r|] eqn:Hrole; [|discriminate].
    destruct (value_get (tx "content") _) as [c|] eqn:Hcontent; [|discriminate].
    injection Hr as <-. exists r, c. repeat split; assumption.
Qed.

(** C1. A successful [build_messages] returns these blocks, in this order
    and nothing else: one system message holding the trimmed system
    prompt; one system message prefixed by the rolling-summary header,
    present exactly when the rolling summary is not empty after trimming;
    every active turn with its role and content, in order; one system
    message prefixed by the history header, present exactly when the search
    returned a hit, with one line [score=S] role: content per hit in the
    order of the search; one user message holding the user message. *)
Theorem build_messages_order (sp um : text) (hq : option text) (st st' : State)
    (msgs : list Message) (ledger : PromptLedger) :
  build_messages sp um hq st = (Ok (msgs, ledger), st') ->
  exists (st1 : State) (hits : list JsonlHistoryStore.Hit) (lines : list text),
    history_step hq st1 = (Ok hits, st')
    /\ in_fixed_order sp um (self st') hits lines msgs.
Proof.
  intros H. apply build_messages_ok in H as (st1 & hits & _ & Hh & _ & Ha).
  unfold assemble in Ha.
  destruct (result_map render_hit hits) as [lines|] eqn:Hl; [|discriminate].
  destruct (result_map hit_tokens hits); [|discriminate].
  injection Ha as <- _. exists st1, hits, lines.
  split; [exact Hh|]. split; [by apply render_hits_rendered|].
  unfold summary_block, history_block.
  pose proof (result_map_length _ _ _ Hl) as Hlen.
  destruct hits, lines; try discriminate; reflexivity.
Qed.

(** C10. The token estimate of the ledger is at least 3: it adds the
    rough estimates of the system prompt, of the rolling summary and of the
    user message, each at least 1 (the empty text counts 1), to those of the
    active turns and of the hits; and every active turn adds at least 1 to
    the estimate of the active set. *)
Theorem ledger_estimate_at_least_three (sp um : text) (hq : option text)
    (st st' : State) (msgs : list Message) (ledger : PromptLedger) :
  build_messages sp um hq st = (Ok (msgs, ledger), st') ->
  3 <= token_estimate ledger
  /\ (exists hit_estimate : nat,
        token_estimate ledger
        = _rough_tokens sp + _rough_tokens (rolling_summary (self st'))
          + _estimate_tokens (active_turns (self st')) + hit_estimate
          + _rough_tokens um)
  /\ _rough_tokens [] = 1
  /\ (forall (pre post : list Turn) (t : Turn),
        _estimate_tokens (pre ++ post) + 1 <= _estimate_tokens (pre ++ t :: post)).
Proof.
  intros H. apply build_messages_ok in H as (st1 & hits & _ & _ & _ & Ha).
  unfold assemble in Ha.
  destruct (result_map render_hit hits); [|discriminate].
  destruct (result_map hit_tokens hits) as [ests|]; [|discriminate].
  injection Ha as _ <-. cbn [token_estimate].
  pose proof (rough_tokens_pos sp). pose proof (rough_tokens_pos um).
  pose proof (rough_tokens_pos (rolling_summary (self st'))).
  split; [lia|]. split; [by exists (sum_nat ests)|]. split; [reflexivity|].
  intros pre post t. rewrite !estimate_tokens_app, estimate_tokens_cons.
  pose proof (rough_tokens_pos (t_content t)). lia.
Qed.

(** C6. After a successful [_compact] on a non-empty active set, with a
    non-negative [summary_max_chars], the rolling summary is the output of
    the summarizer on the previous summary and the last ten active turns
    (all of them when there are fewer), cut to [summary_max_chars]
    characters and then trimmed; its length is at most
    [summary_max_chars]. *)
Theorem compact_replaces_summary (st st' : State) :
  active_turns (self st) <> [] ->
  (0 <= summary_max_chars (cfg (self st)))%Z ->
  _compact st = (Ok tt, st') ->
  let m := self st in
  exists (w1 w2 : World) (s : text),
    JsonlHistoryStore.append (store m) (session_id m)
      (map turn_dict (active_turns m)) (world st) = (Ok tt, w1)
    /\ LlmSummarizer.compact (summarizer m) (rolling_summary m)
         (drop (length (active_turns m) - 10) (active_turns m)) w1 = (Ok s, w2)
    /\ rolling_summary (self st')
       = strip (take (Z.to_nat (summary_max_chars (cfg m))) s)
    /\ (Z.of_nat (length (rolling_summary (self st')))
        <= summary_max_chars (cfg m))%Z.
Proof.
  intros Hne Hcap Hc m. subst m.
  rewrite (compact_nonempty _ Hne) in Hc. cbv zeta in Hc.
  destruct (JsonlHistoryStore.append _ _ _ _) as [[[]|e] w1] eqn:Happ;
    [|discriminate].
  rewrite recent_slice_last_ten in Hc.
  destruct (LlmSummarizer.compact _ _ _ _) as [[s|e] w2] eqn:Hs; [|discriminate].
  injection Hc as <-. exists w1, w2, s. cbn [self rolling_summary].
  assert (Hslice : slice_to (summary_max_chars (cfg (self st))) s
                   = take (Z.to_nat (summary_max_chars (cfg (self st)))) s).
  { unfold slice_to. destruct (Z.leb_spec 0 (summary_max_chars (cfg (self st))));
      [reflexivity | lia]. }
  split; [done|]. split; [done|].
  split; [by rewrite Hslice|].
  pose proof (strip_length (slice_to (summary_max_chars (cfg (self st))) s)).
  pose proof (slice_to_length _ s Hcap). lia.
Qed.



(** ** [read_all] and [keyword_search], unfolded *)

Lemma read_all_unfold (s : JsonlHistoryStore.t) (sid : text) (w : World) :
  JsonlHistoryStore.read_all s sid w =
  let p := JsonlHistoryStore._path s sid in
  match files w !! p with
  | None => (Ok [], mkWorld (files w) (write_budget w) (trace w ++ [EvExists p]))
  | Some data => (result_map json_loads (file_lines data), opened p w)
  end.
Proof.
  unfold JsonlHistoryStore.read_all, m_bind, m_get, log, m_modify, opened.
  cbn [files write_budget trace].
  destruct (files w !! JsonlHistoryStore._path s sid); [|reflexivity].
  cbn [files write_budget trace]. unfold m_lift. by rewrite <- app_assoc.
Qed.

Lemma keyword_search_unfold (s : JsonlHistoryStore.t) (sid query : text)
    (k : Z) (w : World) :
  lower (strip query) <> [] ->
  JsonlHistoryStore.keyword_search s sid query k w =
  match JsonlHistoryStore.read_all s sid w with
  | (Exc e, w1) => (Exc e, w1)
  | (Ok rows, w1) =>
      (match JsonlHistoryStore.collect_hits (lower (strip query)) rows with
       | Ok hits => Ok (slice_to k (JsonlHistoryStore.sort_desc hits))
       | Exc e => Exc e
       end, w1)
  end.
Proof.
  intros Hq. unfold JsonlHistoryStore.keyword_search.
  destruct (lower (strip query)) as [|c q] eqn:E; [congruence|].
  unfold m_bind, m_lift, m_ret.
  destruct (JsonlHistoryStore.read_all s sid w) as [[rows|e] w1]; [|reflexivity].
  destruct (JsonlHistoryStore.collect_hits (c :: q) rows); reflexivity.
Qed.

Lemma json_loads_error (line : text) (e : exn) :
  json_loads line = Exc e -> e = JSONDecodeError.
Proof.
  unfold json_loads.
  destruct (scan_once _ _) as [[v r]|]; [destruct (skip_ws r)|]; congruence.
Qed.

Lemma result_map_error {A B} (f : A -> result B) (l : list A) (x : A) (e : exn) :
  In x l -> f x = Exc e -> exists e', result_map f l = Exc e'.
Proof.
  induction l as [|y l IH]; intros Hin Hx; [destruct Hin|].
  simpl. destruct Hin as [->|Hin].
  - rewrite Hx. by exists e.
  - destruct (f y); [|by eexists].
    destruct (IH Hin Hx) as [e' ->]. by exists e'.
Qed.

Lemma result_map_all {A B} (f : A -> result B) (l : list A) (l' : list B) :
  Forall2 (fun x y => f x = Ok y) l l' -> result_map f l = Ok l'.
Proof.
  induction 1 as [|x y l l' Hx _ IH]; [reflexivity|].
  simpl. by rewrite Hx, IH.
Qed.

Lemma result_map_loads_error (ls : list text) (e : exn) :
  result_map json_loads ls = Exc e -> e = JSONDecodeError.
Proof.
  induction ls as [|l ls IH]; simpl; [discriminate|].
  destruct (json_loads l) eqn:Hl.
  - destruct (result_map json_loads ls); [discriminate|].
    intros H. injection H as <-. by apply IH.
  - intros H. injection H as <-. by apply json_loads_error in Hl.
Qed.

(** C3, as amended. [read_all] does not skip a record: when a line of
    the archive is not valid JSON the read raises [JSONDecodeError], and so
    does every [keyword_search] with a non-blank query; when every line
    decodes, [read_all] returns all the rows in the order of the file. *)
Theorem read_all_aborts_on_bad_record (s : JsonlHistoryStore.t) (sid : text)
    (w : World) (data : text) :
  files w !! JsonlHistoryStore._path s sid = Some data ->
  let w' := opened (JsonlHistoryStore._path s sid) w in
  (forall (bad : text) (e0 : exn),
      In bad (file_lines data) ->
      json_loads bad = Exc e0 ->
      JsonlHistoryStore.read_all s sid w = (Exc JSONDecodeError, w')
      /\ forall (query : text) (k : Z),
           lower (strip query) <> [] ->
           JsonlHistoryStore.keyword_search s sid query k w
           = (Exc JSONDecodeError, w'))
  /\ (forall rows : list value,
         Forall2 (fun line row => json_loads line = Ok row) (file_lines data) rows ->
         JsonlHistoryStore.read_all s sid w = (Ok rows, w')).
Proof.
  intros Hf w'. subst w'. split.
  - intros bad e0 Hin Hbad.
    assert (Hr : JsonlHistoryStore.read_all s sid w
                 = (Exc JSONDecodeError, opened (JsonlHistoryStore._path s sid) w)).
    { rewrite read_all_unfold. cbv zeta. rewrite Hf.
      destruct (result_map_error json_loads _ _ _ Hin Hbad) as [e He].
      rewrite He. by rewrite (result_map_loads_error _ _ He). }
    split; [exact Hr|].
    intros query k Hq. rewrite (keyword_search_unfold _ _ _ _ _ Hq).
    by rewrite Hr.
  - intros rows Hall. rewrite read_all_unfold. cbv zeta. rewrite Hf.
    by rewrite (result_map_all _ _ _ Hall).
Qed.

(** ** The stable sort of the hits *)

Lemma insert_desc_perm (h : Hit) (l : list Hit) : insert_desc h l ≡ₚ h :: l.
Proof.
  induction l as [|x l IH]; simpl; [reflexivity|].
  destruct (score h <? score x); [|reflexivity].
  rewrite IH. apply Permutation_swap.
Qed.

Lemma sort_desc_perm (l : list Hit) : sort_desc l ≡ₚ l.
Proof.
  induction l as [|h l IH]; simpl; [reflexivity|].
  rewrite insert_desc_perm. by rewrite IH.
Qed.

Lemma insert_desc_sorted (h : Hit) (l : list Hit) :
  StronglySorted desc l -> StronglySorted desc (insert_desc h l).
Proof.
  induction 1 as [|x l Hl IH Hx]; simpl.
  - repeat constructor.
  - destruct (Nat.ltb_spec (score h) (score x)) as [Hlt|Hge].
    + constructor; [exact IH|].
      rewrite insert_desc_perm. constructor; [unfold desc; lia | exact Hx].
    + constructor; [by constructor|].
      constructor; [exact Hge|].
      eapply Forall_impl; [exact Hx|]. unfold desc. intros; lia.
Qed.

Lemma sort_desc_sorted (l : list Hit) : StronglySorted desc (sort_desc l).
Proof.
  induction l as [|h l IH]; simpl; [constructor | by apply insert_desc_sorted].
Qed.

Lemma insert_desc_stable (n : nat) (h : Hit) (l : list Hit) :
  List.filter (has_score n) (insert_desc h l)
  = List.filter (has_score n) (h :: l).
Proof.
  induction l as [|x l IH]; [reflexivity|].
  cbn [insert_desc].
  destruct (Nat.ltb_spec (score h) (score x)) as [Hlt|Hge]; [|reflexivity].
  cbn [List.filter] in *. rewrite IH. unfold has_score.
  destruct (Nat.eqb_spec (score h) n), (Nat.eqb_spec (score x) n);
    try reflexivity; lia.
Qed.

Lemma sort_desc_stable (n : nat) (l : list Hit) :
  List.filter (has_score n) (sort_desc l) = List.filter (has_score n) l.
Proof.
  induction l as [|h l IH]; [reflexivity|].
  cbn [sort_desc]. rewrite insert_desc_stable. cbn [List.filter]. by rewrite IH.
Qed.



(** ** The ranking of [keyword_search] *)

Lemma row_score_scorable (q : text) (row : value) :
  scorable row = true ->
  row_score q row = Ok (str_count (lower (content_text row)) q).
Proof.
  destruct row as [| | | | |l|d]; try discriminate.
  unfold scorable, row_score, content_text, value_get.
  destruct (dict_lookup (tx "content") d) as [v|]; [|reflexivity].
  change (default VNone (Some v)) with v.
  destruct v as [|b|z|lit|s0|l|d']; cbn [truthy]; intros H.
  - reflexivity.
  - destruct b; [discriminate | reflexivity].
  - destruct (z =? 0)%Z; [reflexivity | discriminate].
  - destruct (all_zero_mantissa lit); [reflexivity | discriminate].
  - destruct s0; reflexivity.
  - destruct l; [reflexivity | discriminate].
  - destruct d'; [reflexivity | discriminate].
Qed.

Lemma collect_hits_scorable (q : text) (rows : list value) :
  Forall (fun r => scorable r = true) rows ->
  collect_hits q rows = Ok (positive_hits q rows).
Proof.
  induction 1 as [|row rows Hrow _ IH]; [reflexivity|].
  cbn [collect_hits]. rewrite (row_score_scorable _ _ Hrow), IH.
  unfold positive_hits. cbn [map List.filter score].
  destruct (0 <? _); reflexivity.
Qed.

Lemma count_from_skip (q : text) (s : text) :
  forall k, count_from q k s = count_from q 0 (drop k s).
Proof.
  induction s as [|c s IH]; intros k.
  - by destruct k.
  - destruct k as [|k]; [reflexivity|]. cbn [count_from drop]. apply IH.
Qed.

(** The count is that of the leftmost occurrences, each search resuming
    after the end of the last match. *)
Lemma str_count_greedy (q s : text) :
  q <> [] ->
  str_count s q =
  match s with
  | [] => 0
  | _ :: s' =>
      if is_prefix q s then S (str_count (drop (length q) s) q)
      else str_count s' q
  end.
Proof.
  intros Hq. destruct q as [|a q]; [congruence|].
  unfold str_count. destruct s as [|c s]; [reflexivity|].
  cbn [count_from]. destruct (is_prefix (a :: q) (c :: s)); [|reflexivity].
  f_equal. rewrite count_from_skip. cbn [length drop Nat.sub].
  by rewrite ?Nat.sub_0_r.
Qed.

Lemma positive_hits_scored (q : text) (rows : list value) :
  Forall (fun h => 0 < score h
                   /\ score h = str_count (lower (content_text (turn h))) q
                   /\ In (turn h) rows) (positive_hits q rows).
Proof.
  apply List.Forall_forall. intros h Hin.
  unfold positive_hits in Hin. apply List.filter_In in Hin as [Hin Hpos].
  apply List.in_map_iff in Hin as (row & <- & Hrow). cbn [score turn] in *.
  apply Nat.ltb_lt in Hpos. auto.
Qed.

(** C7. For a non-negative [top_k] and an archive of rows that can be
    scored: a query that is blank after trimming returns no hit and leaves
    the world untouched; otherwise the hits are the first [top_k] of a
    ranking that holds exactly the rows with a positive score, the score
    being the count of non-overlapping occurrences of the trimmed,
    lowercased query in the lowercased content, in descending score order
    and, for each score, in the order of the archive. *)
Theorem keyword_search_ranks (s : JsonlHistoryStore.t) (sid query : text)
    (top_k : Z) (w w1 : World) (rows : list value) :
  (0 <= top_k)%Z ->
  read_all s sid w = (Ok rows, w1) ->
  Forall (fun r => scorable r = true) rows ->
  let q := lower (strip query) in
  (q = [] -> forall w0 : World, keyword_search s sid query top_k w0 = (Ok [], w0))
  /\ (q <> [] ->
      exists ranked : list Hit,
        keyword_search s sid query top_k w = (Ok (take (Z.to_nat top_k) ranked), w1)
        /\ (Z.of_nat (length (take (Z.to_nat top_k) ranked)) <= top_k)%Z
        /\ ranking q rows ranked)
  /\ (q <> [] ->
      forall content : text,
        str_count content q =
        match content with
        | [] => 0
        | _ :: rest =>
            if is_prefix q content
            then S (str_count (drop (length q) content) q)
            else str_count rest q
        end).
Proof.
  intros Hk Hread Hrows q. subst q. split; [|split].
  - intros Hq w0. unfold keyword_search. by rewrite Hq.
  - intros Hq. exists (sort_desc (positive_hits (lower (strip query)) rows)).
    split; [|split].
    + rewrite (keyword_search_unfold _ _ _ _ _ Hq), Hread.
      rewrite (collect_hits_scorable _ _ Hrows). unfold slice_to.
      destruct (Z.leb_spec 0 top_k); [reflexivity | lia].
    + rewrite length_take. lia.
    + split; [apply sort_desc_perm|]. split; [apply sort_desc_sorted|].
      split; [intros n; apply sort_desc_stable|].
      eapply Permutation_Forall; [symmetry; apply sort_desc_perm|].
      apply positive_hits_scored.
  - intros Hq content. by apply str_count_greedy.
Qed.



(** ** Decoding what [json.dumps] wrote for a turn *)

Ltac each_char c :=
  destruct c as [[] [] [] [] [] [] [] []].

Lemma scanstring_escape_char (c : ascii) (tail : text) :
  scanstring (escape_char c ++ tail)
  = match scanstring tail with
    | Some (t, r) => Some (c :: t, r)
    | None => None
    end.
Proof. each_char c; reflexivity. Qed.

Lemma scanstring_escape (s rest : text) :
  scanstring (escape s ++ dq :: rest) = Some (s, rest).
Proof.
  induction s as [|c s IH]; [reflexivity|].
  unfold escape in *. cbn [map concat]. rewrite <- app_assoc.
  by rewrite scanstring_escape_char, IH.
Qed.

Lemma escape_char_no_newline (c : ascii) : no_newline (escape_char c) = true.
Proof. each_char c; reflexivity. Qed.

Lemma no_newline_app (a b : text) :
  no_newline (a ++ b) = no_newline a && no_newline b.
Proof. apply forallb_app. Qed.

Lemma escape_no_newline (s : text) : no_newline (escape s) = true.
Proof.
  induction s as [|c s IH]; [reflexivity|].
  unfold escape in *. cbn [map concat].
  by rewrite no_newline_app, escape_char_no_newline, IH.
Qed.

Lemma num_char_no_newline (c : ascii) :
  is_num_char c = true -> negb (code c =? 10) = true.
Proof. each_char c; intros H; first [reflexivity | discriminate H]. Qed.

Lemma num_char_not_ws (c : ascii) :
  is_num_char c = true -> is_json_ws c = false.
Proof. each_char c; intros H; first [reflexivity | discriminate H]. Qed.

Lemma float_repr_chars (lit : text) :
  is_float_repr lit = true -> forallb is_num_char lit = true.
Proof. unfold is_float_repr. intros H. by apply andb_true_iff in H as [? _]. Qed.

Lemma float_repr_parse (lit : text) :
  is_float_repr lit = true -> parse_number lit = Some (VFloat lit).
Proof.
  unfold is_float_repr. intros H. apply andb_true_iff in H as [_ H].
  unfold parse_number in *.
  destruct (int_part _) as [r1|]; [|discriminate].
  destruct (frac_part r1) as [f r2]. destruct (exp_part r2) as [e r3].
  destruct r3; [|discriminate]. destruct (f || e); [reflexivity | discriminate].
Qed.

Lemma float_repr_no_newline (lit : text) :
  is_float_repr lit = true -> no_newline lit = true.
Proof.
  intros H. apply float_repr_chars in H. unfold no_newline.
  apply forallb_forall. intros c Hc.
  apply num_char_no_newline. eapply forallb_forall in H; eauto.
Qed.

Lemma text_eqb_eq (a b : text) : text_eqb a b = true -> a = b.
Proof.
  revert b. induction a as [|x a IH]; intros [|y b] H; try discriminate;
    [reflexivity|].
  cbn in H. apply andb_true_iff in H as [Hx Hab].
  apply Ascii.eqb_eq in Hx. f_equal; [exact Hx | by apply IH].
Qed.

Lemma dumps_float_repr (lit : text) :
  is_float_repr lit = true -> dumps_float lit = lit.
Proof.
  intros H. apply float_repr_chars in H. unfold dumps_float.
  destruct (text_eqb lit (tx "nan")) eqn:E1;
    [apply text_eqb_eq in E1; subst; discriminate H|].
  destruct (text_eqb lit (tx "inf")) eqn:E2;
    [apply text_eqb_eq in E2; subst; discriminate H|].
  destruct (text_eqb lit (tx "-inf")) eqn:E3;
    [apply text_eqb_eq in E3; subst; discriminate H|].
  reflexivity.
Qed.

Lemma num_run (lit : text) (c : ascii) (rest : text) :
  forallb is_num_char lit = true ->
  is_num_char c = false ->
  take_while is_num_char (lit ++ c :: rest) = lit
  /\ drop_while is_num_char (lit ++ c :: rest) = c :: rest.
Proof.
  intros Hl Hc. induction lit as [|a lit IH]; cbn.
  - by rewrite Hc.
  - cbn in Hl. apply andb_true_iff in Hl as [Ha Hl]. rewrite Ha.
    destruct (IH Hl) as [-> ->]. done.
Qed.

(** A number is scanned as such when it starts with a digit, or with a
    minus sign and a digit. *)
Lemma scan_once_number (f : nat) (a : ascii) (s : text) :
  is_digit a = true
  \/ (a = "-"%char /\ exists d s', s = d :: s' /\ is_digit d = true) ->
  scan_once (S f) (a :: s)
  = match parse_number (take_while is_num_char (a :: s)) with
    | Some v => Some (v, drop_while is_num_char (a :: s))
    | None => None
    end.
Proof.
  intros [Ha | [-> (d & s' & -> & Hd)]].
  - each_char a; first [discriminate Ha | reflexivity].
  - each_char d; first [discriminate Hd | reflexivity].
Qed.

Lemma float_repr_head (lit : text) :
  is_float_repr lit = true ->
  exists a lit', lit = a :: lit'
    /\ (is_digit a = true
        \/ (a = "-"%char /\ exists d s', lit' = d :: s' /\ is_digit d = true)).
Proof.
  intros H. apply float_repr_parse in H. unfold parse_number in H.
  destruct lit as [|a lit']; [discriminate|]. exists a, lit'.
  split; [reflexivity|].
  destruct (code a =? 45) eqn:Ea.
  - right. split.
    + each_char a; first [discriminate Ea | reflexivity].
    + destruct lit' as [|d s']; [discriminate|]. exists d, s'.
      split; [reflexivity|]. unfold int_part in H.
      destruct (code d =? 48) eqn:Ed.
      * unfold is_digit. apply Nat.eqb_eq in Ed. rewrite Ed. reflexivity.
      * destruct (is_digit d); [reflexivity | discriminate].
  - left. unfold int_part in H.
    destruct (code a =? 48) eqn:Ed.
    + unfold is_digit. apply Nat.eqb_eq in Ed. rewrite Ed. reflexivity.
    + destruct (is_digit a); [reflexivity | discriminate].
Qed.

Lemma scan_once_float (f : nat) (lit : text) (c : ascii) (rest : text) :
  is_float_repr lit = true ->
  is_num_char c = false ->
  scan_once (S f) (lit ++ c :: rest) = Some (VFloat lit, c :: rest).
Proof.
  intros Hlit Hc.
  destruct (float_repr_head _ Hlit) as (a & lit' & -> & Hhead).
  destruct (num_run (a :: lit') c rest (float_repr_chars _ Hlit) Hc) as [Ht Hd].
  cbn [app] in *. rewrite scan_once_number.
  - by rewrite Ht, Hd, (float_repr_parse _ Hlit).
  - destruct Hhead as [Ha | [-> (d & s' & -> & Hd')]]; [by left|].
    right. split; [reflexivity|]. by exists d, (s' ++ c :: rest).
Qed.

Lemma scan_once_string (f : nat) (s rest : text) :
  scan_once (S f) (dq :: escape s ++ dq :: rest) = Some (VStr s, rest).
Proof.
  cbn [scan_once]. change (code dq =? 34) with true. cbv iota.
  by rewrite scanstring_escape.
Qed.



Section Members.
Variable scan : text -> option (value * text).

(** One member followed by another one. *)
Lemma parse_members_more (n : nat) (k vt : text) (v : value) (more : text) :
  scan (vt ++ tx ", " ++ more) = Some (v, tx ", " ++ more) ->
  skip_ws (vt ++ tx ", " ++ more) = vt ++ tx ", " ++ more ->
  skip_ws more = more ->
  parse_members scan (S n)
    (dq :: escape k ++ dq :: tx ": " ++ vt ++ tx ", " ++ more)
  = match parse_members scan n more with
    | Some (ms, r) => Some ((k, v) :: ms, r)
    | None => None
    end.
Proof.
  intros Hv Hvt Hmore. cbn [parse_members].
  change (code dq =? 34) with true. cbv iota.
  rewrite scanstring_escape.
  change (skip_ws (tx ": " ++ vt ++ tx ", " ++ more))
    with (":"%char :: " "%char :: vt ++ tx ", " ++ more).
  change (code ":"%char =? 58) with true. cbv iota.
  change (skip_ws (" "%char :: vt ++ tx ", " ++ more))
    with (skip_ws (vt ++ tx ", " ++ more)).
  rewrite Hvt, Hv.
  change (skip_ws (tx ", " ++ more)) with (","%char :: " "%char :: more).
  change (code ","%char =? 125) with false.
  change (code ","%char =? 44) with true. cbv iota.
  change (skip_ws (" "%char :: more)) with (skip_ws more).
  by rewrite Hmore.
Qed.

(** The last member and the closing brace. *)
Lemma parse_members_last (n : nat) (k vt : text) (v : value) (rest : text) :
  scan (vt ++ tx "}" ++ rest) = Some (v, tx "}" ++ rest) ->
  skip_ws (vt ++ tx "}" ++ rest) = vt ++ tx "}" ++ rest ->
  parse_members scan (S n)
    (dq :: escape k ++ dq :: tx ": " ++ vt ++ tx "}" ++ rest)
  = Some ([(k, v)], rest).
Proof.
  intros Hv Hvt. cbn [parse_members].
  change (code dq =? 34) with true. cbv iota.
  rewrite scanstring_escape.
  change (skip_ws (tx ": " ++ vt ++ tx "}" ++ rest))
    with (":"%char :: " "%char :: vt ++ tx "}" ++ rest).
  change (code ":"%char =? 58) with true. cbv iota.
  change (skip_ws (" "%char :: vt ++ tx "}" ++ rest))
    with (skip_ws (vt ++ tx "}" ++ rest)).
  rewrite Hvt, Hv. reflexivity.
Qed.
End Members.

Lemma skip_ws_quote (s : text) : skip_ws (dq :: s) = dq :: s.
Proof. reflexivity. Qed.

Lemma skip_ws_float (lit rest : text) :
  is_float_repr lit = true -> skip_ws (lit ++ rest) = lit ++ rest.
Proof.
  intros H. destruct (float_repr_head _ H) as (a & lit' & -> & _).
  apply float_repr_chars in H. cbn in H. apply andb_true_iff in H as [Ha _].
  cbn. unfold skip_ws. cbn. by rewrite (num_char_not_ws _ Ha).
Qed.

Ltac flatten_app :=
  repeat (rewrite <- app_assoc || rewrite <- app_comm_cons || rewrite app_nil_l).

Lemma json_dumps_turn (t : Turn) (rest : text) :
  is_float_repr (t_ts t) = true ->
  json_dumps (turn_dict t) ++ rest = turn_json t rest.
Proof.
  intros H. unfold turn_dict, turn_json. cbn [json_dumps map join fst snd].
  rewrite (dumps_float_repr _ H). unfold encode_basestring.
  flatten_app. reflexivity.
Qed.



Lemma scan_once_quoted (f : nat) (s rest : text) :
  scan_once (S f) ((dq :: escape s ++ dq :: []) ++ rest) = Some (VStr s, rest).
Proof.
  rewrite <- app_comm_cons, <- app_assoc. apply scan_once_string.
Qed.

Lemma scan_once_object (f : nat) (r : text) :
  scan_once (S f) ("{"%char :: r)
  = match parse_object (scan_once f) r with
    | Some (ms, r') => Some (VDict (dict_of_pairs ms), r')
    | None => None
    end.
Proof. reflexivity. Qed.

Lemma scan_once_turn (f : nat) (t : Turn) (rest : text) :
  is_float_repr (t_ts t) = true ->
  scan_once (S (S f)) (turn_json t rest) = Some (turn_dict t, rest).
Proof.
  intros Hts. unfold turn_json.
  change (tx "{" ++ ?x) with ("{"%char :: x).
  rewrite scan_once_object. unfold parse_object. rewrite skip_ws_quote.
  change (code dq =? 125) with false. cbv iota.
  match goal with
  | |- context [parse_members _ (length ?r) _] =>
      destruct (length r) as [|[|[|[|n]]]] eqn:E;
        [ exfalso; revert E; cbn [length]; rewrite ?length_app; cbn [length];
          rewrite ?length_app; cbn [length]; rewrite ?length_app; cbn [length];
          rewrite ?length_app; cbn [length]; lia .. |]
  end.
  rewrite (parse_members_more _ _ _ _ (VStr (t_role t)));
    [|apply scan_once_quoted | reflexivity | reflexivity].
  rewrite (parse_members_more _ _ _ _ (VStr (t_content t)));
    [|apply scan_once_quoted | reflexivity | reflexivity].
  rewrite (parse_members_more _ _ _ _ (VFloat (t_ts t)));
    [| exact (scan_once_float f (t_ts t) ","%char _ Hts eq_refl)
     | by apply skip_ws_float | reflexivity].
  rewrite (parse_members_last _ _ _ _ (VStr (t_id t)));
    [|apply scan_once_quoted | reflexivity].
  reflexivity.
Qed.

Lemma json_loads_turn (t : Turn) :
  is_float_repr (t_ts t) = true ->
  json_loads (json_dumps (turn_dict t) ++ nl) = Ok (turn_dict t).
Proof.
  intros Hts. rewrite (json_dumps_turn _ _ Hts). unfold json_loads.
  assert (Hskip : skip_ws (turn_json t nl) = turn_json t nl) by reflexivity.
  rewrite Hskip.
  assert (Hlen : exists f, length (turn_json t nl) = S f)
    by (unfold turn_json; eexists; reflexivity).
  destruct Hlen as [f ->].
  by rewrite (scan_once_turn _ _ _ Hts).
Qed.

Lemma turn_json_no_newline (t : Turn) :
  is_float_repr (t_ts t) = true -> no_newline (json_dumps (turn_dict t)) = true.
Proof.
  intros Hts. rewrite <- (app_nil_r (json_dumps _)), (json_dumps_turn _ _ Hts).
  unfold turn_json.
  repeat (rewrite no_newline_app
          || rewrite escape_no_newline
          || rewrite (float_repr_no_newline _ Hts)
          || (progress change (no_newline (dq :: ?x)) with (no_newline x))).
  reflexivity.
Qed.

(** ** Lines of the archive file *)

Lemma file_lines_record (l rest : text) :
  no_newline l = true ->
  file_lines (l ++ nl ++ rest) = (l ++ nl) :: file_lines rest.
Proof.
  intros Hl. induction l as [|c l IH]; [reflexivity|].
  cbn in Hl. apply andb_true_iff in Hl as [Hc Hl].
  cbn [app file_lines]. apply negb_true_iff in Hc. rewrite Hc.
  by rewrite (IH Hl).
Qed.

Lemma file_lines_records (turns : list value) :
  Forall (fun v => no_newline (json_dumps v) = true) turns ->
  file_lines (records_text turns) = map record_line turns.
Proof.
  induction 1 as [|v turns Hv _ IH]; [reflexivity|].
  unfold records_text in *. cbn [map concat]. unfold record_line at 1.
  rewrite <- app_assoc, (file_lines_record _ _ Hv), IH. reflexivity.
Qed.



(** ** A sequence of [append] calls, then [read_all] *)

Lemma records_text_app (a b : list value) :
  records_text (a ++ b) = records_text a ++ records_text b.
Proof. unfold records_text. by rewrite map_app, concat_app. Qed.

Lemma append_batches_unlimited (s : JsonlHistoryStore.t) (sid : text)
    (batches : list (list value)) :
  forall w : World,
    write_budget w = None ->
    exists w',
      append_batches s sid batches w = (Ok tt, w')
      /\ write_budget w' = None
      /\ files w' !! _path s sid
         = match batches with
           | [] => files w !! _path s sid
           | _ :: _ => Some (default [] (files w !! _path s sid)
                             ++ records_text (concat batches))
           end.
Proof.
  induction batches as [|b rest IH]; intros w Hb.
  - exists w. by repeat split.
  - destruct (append_unlimited s sid b w Hb) as (w1 & Happ & Hb1).
    destruct (IH w1 Hb1) as (w' & Hrun & Hb' & Hfile).
    exists w'. cbn [append_batches]. unfold m_bind. rewrite Happ.
    split; [exact Hrun|]. split; [exact Hb'|].
    rewrite Hfile. apply append_files in Happ. rewrite Happ.
    rewrite lookup_insert_eq. cbn [concat].
    destruct rest; cbn [default from_option concat id].
    + by rewrite app_nil_r.
    + by rewrite (records_text_app b), app_assoc.
Qed.

(** C8. On a fresh session and a device that accepts the writes, any
    sequence of [append] calls followed by [read_all] returns the
    dictionaries of all the appended turns, batch after batch in call order,
    each with the role, content and identifier of its turn. *)
Theorem read_all_returns_appended (s : JsonlHistoryStore.t) (sid : text)
    (batches : list (list Turn)) (w : World) :
  files w !! _path s sid = None ->
  write_budget w = None ->
  Forall (Forall (fun t => is_float_repr (t_ts t) = true)) batches ->
  exists (w1 w2 : World) (rows : list value),
    append_batches s sid (map (map turn_dict) batches) w = (Ok tt, w1)
    /\ read_all s sid w1 = (Ok rows, w2)
    /\ rows = map turn_dict (concat batches)
    /\ Forall2 same_turn (concat batches) rows.
Proof.
  intros Hnew Hb Hts.
  destruct (append_batches_unlimited s sid (map (map turn_dict) batches) w Hb)
    as (w1 & Hrun & _ & Hfile).
  rewrite Hnew in Hfile. cbn [default from_option app] in Hfile.
  rewrite <- concat_map in Hfile.
  assert (Hall : Forall (fun t => is_float_repr (t_ts t) = true) (concat batches)).
  { clear -Hts. induction Hts as [|b bs Hb _ IH]; [constructor|].
    cbn [concat]. apply Forall_app. by split. }
  assert (Hread : exists w2,
             read_all s sid w1 = (Ok (map turn_dict (concat batches)), w2)).
  { rewrite read_all_unfold. cbv zeta. rewrite Hfile.
    destruct batches as [|b bs]; [by eexists|].
    cbn [map]. eexists. f_equal.
    rewrite file_lines_records.
    - apply result_map_all. clear -Hall.
      induction Hall as [|t ts Ht _ IH]; [constructor|].
      cbn [map]. constructor; [by apply json_loads_turn | exact IH].
    - apply Forall_map. eapply Forall_impl; [exact Hall|].
      intros t Ht. by apply turn_json_no_newline. }
  destruct Hread as [w2 Hread].
  exists w1, w2, (map turn_dict (concat batches)).
  split; [exact Hrun|]. split; [exact Hread|]. split; [reflexivity|].
  clear. induction (concat batches) as [|t ts IH]; [constructor|].
  cbn [map]. constructor; [by repeat split | exact IH].
Qed.


Lemma compact_empty_noop_witness :
  _compact (mkState (Demo.manager 2 Demo.steady [] []) Demo.empty_world)
  = (Ok tt, mkState (Demo.manager 2 Demo.steady [] []) Demo.empty_world).
Proof. apply compact_empty_noop. reflexivity. Defined.

Lemma build_messages_order_witness :
  exists (msgs : list Message) (ledger : PromptLedger) (st' st1 : State)
         (hits : list Hit) (lines : list text),
    build_messages (tx " You are terse. ") (tx "where is the cat?")
      (Some (tx " CAT ")) Demo.later = (Ok (msgs, ledger), st')
    /\ history_step (Some (tx " CAT ")) st1 = (Ok hits, st')
    /\ in_fixed_order (tx " You are terse. ") (tx "where is the cat?")
         (self st') hits lines msgs
    /\ map m_role msgs
       = [tx "system"; tx "system"; tx "user"; tx "system"; tx "user"].
Proof.
  destruct (build_messages (tx " You are terse. ") (tx "where is the cat?")
              (Some (tx " CAT ")) Demo.later) as [[[msgs ledger]|e] st'] eqn:Hrun;
    [|vm_compute in Hrun; discriminate Hrun].
  destruct (build_messages_order _ _ _ _ _ _ _ Hrun)
    as (st1 & hits & lines & Hh & Ho).
  exists msgs, ledger, st', st1, hits, lines.
  split; [reflexivity|]. split; [exact Hh|]. split; [exact Ho|].
  vm_compute in Hrun. injection Hrun as <- _ _. reflexivity.
Defined.

Lemma ledger_estimate_at_least_three_witness :
  exists (msgs : list Message) (ledger : PromptLedger) (st' : State),
    build_messages [] [] None
      (mkState (Demo.manager 5 Demo.steady [] []) Demo.empty_world)
    = (Ok (msgs, ledger), st')
    /\ 3 <= token_estimate ledger
    /\ token_estimate ledger = 3.
Proof.
  destruct (build_messages [] [] None
              (mkState (Demo.manager 5 Demo.steady [] []) Demo.empty_world))
    as [[[msgs ledger]|e] st'] eqn:Hrun;
    [|vm_compute in Hrun; discriminate Hrun].
  exists msgs, ledger, st'. split; [reflexivity|].
  split; [exact (proj1 (ledger_estimate_at_least_three _ _ _ _ _ _ _ Hrun))|].
  vm_compute in Hrun. injection Hrun as _ <- _. reflexivity.
Defined.

Lemma compact_replaces_summary_witness :
  exists st' : State,
    _compact (Demo.due Demo.steady Demo.empty_world) = (Ok tt, st')
    /\ (exists (w1 w2 : World) (s : text),
           append Demo.the_store (tx "s1")
             (map turn_dict [Demo.turn1; Demo.turn2]) Demo.empty_world = (Ok tt, w1)
           /\ LlmSummarizer.compact Demo.steady [] [Demo.turn1; Demo.turn2] w1
              = (Ok s, w2)
           /\ rolling_summary (self st') = strip (take 1400 s)
           /\ (Z.of_nat (length (rolling_summary (self st'))) <= 1400)%Z)
    /\ rolling_summary (self st') = tx "Goal: find the cat".
Proof.
  destruct (_compact (Demo.due Demo.steady Demo.empty_world))
    as [[[]|e] st'] eqn:Hrun; [|vm_compute in Hrun; discriminate Hrun].
  exists st'. split; [reflexivity|]. split.
  - apply (compact_replaces_summary (Demo.due Demo.steady Demo.empty_world) st');
      [discriminate | cbn; lia | exact Hrun].
  - vm_compute in Hrun. injection Hrun as <-. reflexivity.
Defined.

Lemma compact_failure_keeps_state_witness :
  (exists st' : State,
      _compact (Demo.due Demo.broken Demo.empty_world)
      = (Exc (ClientError (tx "timeout")), st')
      /\ rolling_summary (self st')
         = rolling_summary (self (Demo.due Demo.broken Demo.empty_world))
      /\ files (world st')
         = files (snd (append Demo.the_store (tx "s1")
                         (map turn_dict [Demo.turn1; Demo.turn2]) Demo.empty_world)))
  /\ (exists st' : State,
         _compact (Demo.due Demo.steady (mkWorld ∅ (Some 1) [])) = (Exc OSError, st')
         /\ active_turns (self st') = [Demo.turn1; Demo.turn2]
         /\ rolling_summary (self st') = []).
Proof.
  split.
  - apply (proj1 (compact_failure_keeps_state
                    (Demo.due Demo.broken Demo.empty_world)
                    Demo.turn1 [Demo.turn2] eq_refl)).
    + vm_compute. reflexivity.
    + reflexivity.
  - apply (proj1 (proj2 (compact_failure_keeps_state
                    (Demo.due Demo.steady (mkWorld ∅ (Some 1) []))
                    Demo.turn1 [Demo.turn2] eq_refl))
             (snd (append Demo.the_store (tx "s1")
                     (map turn_dict [Demo.turn1; Demo.turn2])
                     (mkWorld ∅ (Some 1) [])))).
    vm_compute. reflexivity.
Defined.

Lemma read_all_aborts_on_bad_record_witness :
  read_all Demo.the_store (tx "s1") Demo.damaged
  = (Exc JSONDecodeError, opened (_path Demo.the_store (tx "s1")) Demo.damaged)
  /\ keyword_search Demo.the_store (tx "s1") (tx "cat") 5 Demo.damaged
     = (Exc JSONDecodeError, opened (_path Demo.the_store (tx "s1")) Demo.damaged).
Proof.
  destruct (proj1 (read_all_aborts_on_bad_record Demo.the_store (tx "s1")
                     Demo.damaged _ (lookup_singleton_eq _ _))
              (tx "{role: user" ++ nl) JSONDecodeError) as [Hr Hs].
  - vm_compute. right. left. reflexivity.
  - vm_compute. reflexivity.
  - split; [exact Hr|]. apply Hs. vm_compute. discriminate.
Defined.

Lemma bad_record_aborts_read :
  file_lines (json_dumps (turn_dict Demo.turn1) ++ nl
              ++ tx "{role: user" ++ nl
              ++ json_dumps (turn_dict Demo.turn2) ++ nl)
  = [json_dumps (turn_dict Demo.turn1) ++ nl;
     tx "{role: user" ++ nl;
     json_dumps (turn_dict Demo.turn2) ++ nl]
  /\ json_loads (json_dumps (turn_dict Demo.turn1) ++ nl) = Ok (turn_dict Demo.turn1)
  /\ json_loads (json_dumps (turn_dict Demo.turn2) ++ nl) = Ok (turn_dict Demo.turn2)
  /\ fst (read_all Demo.the_store (tx "s1") Demo.damaged) = Exc JSONDecodeError
  /\ fst (keyword_search Demo.the_store (tx "s1") (tx "cat") 5 Demo.damaged)
     = Exc JSONDecodeError
  /\ ~ (exists (rows : list value) (w' : World),
          read_all Demo.the_store (tx "s1") Demo.damaged = (Ok rows, w')).
Proof.
  repeat split; try (vm_compute; reflexivity).
  intros (rows & w' & H). vm_compute in H. discriminate H.
Qed.

Lemma keyword_search_ranks_witness :
  exists ranked : list Hit,
    keyword_search Demo.the_store (tx "s1") (tx " CAT ") 5 Demo.archived
    = (Ok (take 5 ranked), opened (_path Demo.the_store (tx "s1")) Demo.archived)
    /\ (Z.of_nat (length (take 5 ranked)) <= 5)%Z
    /\ ranking (tx "cat")
         (map turn_dict [Demo.turn1; Demo.turn2; Demo.turn3; Demo.turn4]) ranked
    /\ map (fun h => (score h, value_get (tx "id") (turn h))) (take 5 ranked)
       = [(2, Ok (VStr (tx "a2"))); (1, Ok (VStr (tx "a1")));
          (1, Ok (VStr (tx "a4")))].
Proof.
  destruct (proj1 (proj2 (keyword_search_ranks Demo.the_store (tx "s1")
              (tx " CAT ") 5 Demo.archived
              (opened (_path Demo.the_store (tx "s1")) Demo.archived)
              (map turn_dict [Demo.turn1; Demo.turn2; Demo.turn3; Demo.turn4])
              ltac:(lia) ltac:(vm_compute; reflexivity)
              ltac:(repeat constructor)))
            ltac:(vm_compute; discriminate))
    as (ranked & Hrun & Hlen & Hrank).
  exists ranked. split; [exact Hrun|]. split; [exact Hlen|]. split; [exact Hrank|].
  assert (Hval : fst (keyword_search Demo.the_store (tx "s1") (tx " CAT ") 5
                        Demo.archived) = Ok (take 5 ranked))
    by (rewrite Hrun; reflexivity).
  clear Hrun Hlen. remember (take 5 ranked) as hits eqn:E. clear E.
  vm_compute in Hval. injection Hval as <-. reflexivity.
Defined.

Lemma read_all_returns_appended_witness :
  exists (w1 w2 : World) (rows : list value),
    append_batches Demo.the_store (tx "s1")
      (map (map turn_dict) [[Demo.turn1; Demo.turn2]; []; [Demo.turn3]])
      Demo.empty_world = (Ok tt, w1)
    /\ read_all Demo.the_store (tx "s1") w1 = (Ok rows, w2)
    /\ rows = map turn_dict (concat [[Demo.turn1; Demo.turn2]; []; [Demo.turn3]])
    /\ Forall2 same_turn
         (concat [[Demo.turn1; Demo.turn2]; []; [Demo.turn3]]) rows.
Proof.
  apply (read_all_returns_appended Demo.the_store (tx "s1")
           [[Demo.turn1; Demo.turn2]; []; [Demo.turn3]] Demo.empty_world).
  - apply lookup_empty.
  - reflexivity.
  - repeat constructor.
Defined.

(** * Further properties of the code *)

(** ** The archive store beyond the claims *)

Lemma read_all_files (s : JsonlHistoryStore.t) (sid : text) (w w' : World)
    (r : result (list value)) :
  read_all s sid w = (r, w') ->
  files w' = files w /\ write_budget w' = write_budget w.
Proof.
  rewrite read_all_unfold. cbv zeta.
  destruct (files w !! _path s sid); intros H; injection H as _ <-; by split.
Qed.

Lemma read_all_result (s : JsonlHistoryStore.t) (sid : text) (w : World) :
  fst (read_all s sid w)
  = match files w !! _path s sid with
    | None => Ok []
    | Some data => result_map json_loads (file_lines data)
    end.
Proof.
  rewrite read_all_unfold. cbv zeta.
  by destruct (files w !! _path s sid).
Qed.

Lemma keyword_search_files (s : JsonlHistoryStore.t) (sid query : text) (k : Z)
    (w w' : World) (r : result (list Hit)) :
  keyword_search s sid query k w = (r, w') ->
  files w' = files w /\ write_budget w' = write_budget w.
Proof.
  destruct (lower (strip query)) as [|c q] eqn:Hq.
  - unfold keyword_search. rewrite Hq. intros H. injection H as _ <-. by split.
  - rewrite keyword_search_unfold by (rewrite Hq; discriminate).
    destruct (read_all s sid w) as [[rows|e] w1] eqn:Hr;
      intros H; injection H as _ <-; by apply read_all_files in Hr.
Qed.

(** X1. [read_all] and [keyword_search] only read: whatever they return or
    raise, the files and the write budget are as before. *)
Theorem reads_leave_files_alone (s : JsonlHistoryStore.t) (sid query : text)
    (k : Z) (w : World) :
  (forall (r : result (list value)) (w' : World),
      read_all s sid w = (r, w') ->
      files w' = files w /\ write_budget w' = write_budget w)
  /\ (forall (r : result (list Hit)) (w' : World),
         keyword_search s sid query k w = (r, w') ->
         files w' = files w /\ write_budget w' = write_budget w).
Proof.
  split; intros r w'; [apply read_all_files | apply keyword_search_files].
Qed.

(** X2. A session without a log reads as empty: [read_all] returns no row
    and every [keyword_search] no hit, without an error and without
    creating the file. *)
Theorem missing_session_reads_empty (s : JsonlHistoryStore.t) (sid : text)
    (w : World) :
  files w !! _path s sid = None ->
  (exists w' : World, read_all s sid w = (Ok [], w') /\ files w' = files w)
  /\ (forall (query : text) (k : Z),
         exists w' : World,
           keyword_search s sid query k w = (Ok [], w') /\ files w' = files w).
Proof.
  intros Hf.
  assert (Hr : read_all s sid w
               = (Ok [], mkWorld (files w) (write_budget w)
                           (trace w ++ [EvExists (_path s sid)]))).
  { rewrite read_all_unfold. cbv zeta. by rewrite Hf. }
  split; [eexists; split; [exact Hr | reflexivity]|].
  intros query k. destruct (lower (strip query)) as [|c q] eqn:Hq.
  - exists w. unfold keyword_search. rewrite Hq. split; reflexivity.
  - exists (mkWorld (files w) (write_budget w)
              (trace w ++ [EvExists (_path s sid)])).
    rewrite keyword_search_unfold by (rewrite Hq; discriminate).
    rewrite Hr. cbn [collect_hits sort_desc]. split; [|reflexivity].
    unfold slice_to. destruct (0 <=? k)%Z; rewrite take_nil; reflexivity.
Qed.



Lemma write_turns_other (p p' : text) (turns : list value) :
  p <> p' ->
  forall (w w' : World) (r : result unit),
    write_turns p turns w = (r, w') -> files w' !! p' = files w !! p'.
Proof.
  intros Hne. induction turns as [|t rest IH]; intros w w' r H.
  - cbn in H. by injection H as _ <-.
  - cbn [write_turns] in H. unfold m_bind, file_write in H.
    destruct (write_budget w) as [[|b]|].
    + by injection H as _ <-.
    + apply IH in H. rewrite H. cbn. by apply lookup_insert_ne.
    + apply IH in H. rewrite H. cbn. by apply lookup_insert_ne.
Qed.

Lemma path_injective (s : JsonlHistoryStore.t) (a b : text) :
  _path s a = _path s b -> a = b.
Proof.
  unfold _path. intros H.
  apply app_inv_head in H. apply app_inv_head in H.
  by apply app_inv_tail in H.
Qed.

(** X4. Sessions do not mix: for identifiers that are plain file names
    (the domain of [_path]), an [append] to session [a], whatever its
    outcome, leaves the file of another session [b] as it was, so
    [read_all] of [b] returns what it returned before. *)
Theorem append_leaves_other_sessions (s : JsonlHistoryStore.t) (a b : text)
    (turns : list value) (w w' : World) (r : result unit) :
  plain_name a = true ->
  plain_name b = true ->
  a <> b ->
  append s a turns w = (r, w') ->
  files w' !! _path s b = files w !! _path s b
  /\ fst (read_all s b w') = fst (read_all s b w).
Proof.
  intros _ _ Hab H.
  assert (Hp : _path s a <> _path s b)
    by (intros Heq; apply Hab; by apply path_injective in Heq).
  assert (Hf : files w' !! _path s b = files w !! _path s b).
  { unfold append, m_bind, open_append in H.
    apply (write_turns_other _ _ _ Hp) in H. rewrite H. cbn.
    by apply lookup_insert_ne. }
  split; [exact Hf|]. by rewrite !read_all_result, Hf.
Qed.

Lemma slice_to_take {A} (k : Z) (l : list A) :
  (0 <= k)%Z -> slice_to k l = take (Z.to_nat k) l.
Proof.
  intros Hk. unfold slice_to. destruct (Z.leb_spec 0 k); [reflexivity | lia].
Qed.

(** X5. Asking for more hits only adds hits at the end: for
    [0 <= k <= k'], the hits for [k] are the first [k] of the hits for
    [k']. *)
Theorem larger_top_k_extends (s : JsonlHistoryStore.t) (sid query : text)
    (k k' : Z) (w w1 w2 : World) (hits hits' : list Hit) :
  (0 <= k <= k')%Z ->
  keyword_search s sid query k w = (Ok hits, w1) ->
  keyword_search s sid query k' w = (Ok hits', w2) ->
  hits = take (Z.to_nat k) hits' /\ w1 = w2.
Proof.
  intros Hk H1 H2. destruct (lower (strip query)) as [|c q] eqn:Hq.
  - unfold keyword_search in *. rewrite Hq in *.
    injection H1 as <- <-. injection H2 as <- <-. by rewrite take_nil.
  - rewrite keyword_search_unfold in H1, H2 by (rewrite Hq; discriminate).
    destruct (read_all s sid w) as [[rows|e] w0]; [|discriminate].
    destruct (collect_hits _ rows) as [hs|e]; [|discriminate].
    injection H1 as <- <-. injection H2 as <- <-. split; [|reflexivity].
    rewrite !slice_to_take by lia. rewrite take_take.
    f_equal. lia.
Qed.

(** X6. A negative [top_k] is not refused: the slice counts from the end,
    so the search returns the ranking without its last [- top_k] hits. *)
Theorem negative_top_k_drops_last (s : JsonlHistoryStore.t) (sid query : text)
    (top_k : Z) (w w1 : World) (rows : list value) :
  (top_k < 0)%Z ->
  lower (strip query) <> [] ->
  read_all s sid w = (Ok rows, w1) ->
  Forall (fun r => scorable r = true) rows ->
  exists hits : list Hit,
    keyword_search s sid query top_k w = (Ok hits, w1)
    /\ hits = take (length (positive_hits (lower (strip query)) rows)
                    - Z.to_nat (- top_k))
                (sort_desc (positive_hits (lower (strip query)) rows))
    /\ length hits = length (positive_hits (lower (strip query)) rows)
                     - Z.to_nat (- top_k).
Proof.
  intros Hk Hq Hr Hrows. eexists.
  rewrite (keyword_search_unfold _ _ _ _ _ Hq), Hr.
  rewrite (collect_hits_scorable _ _ Hrows).
  assert (Hlen : length (sort_desc (positive_hits (lower (strip query)) rows))
                 = length (positive_hits (lower (strip query)) rows))
    by (apply Permutation_length, sort_desc_perm).
  unfold slice_to. destruct (Z.leb_spec 0 top_k); [lia|].
  rewrite Hlen. split; [reflexivity|]. split; [reflexivity|].
  rewrite length_take, Hlen. lia.
Qed.


(** ** [strip] *)

Lemma lstrip_idem (s : text) : lstrip (lstrip s) = lstrip s.
Proof.
  induction s as [|c r IH]; [reflexivity|].
  cbn [lstrip]. destruct (isspace c) eqn:Hc; [exact IH|].
  cbn [lstrip]. by rewrite Hc.
Qed.

Lemma lstrip_snoc (a : text) (c : ascii) :
  isspace c = false -> lstrip (a ++ [c]) = lstrip a ++ [c].
Proof.
  intros Hc. induction a as [|x a IH]; cbn [app lstrip].
  - by rewrite Hc.
  - destruct (isspace x); [exact IH | reflexivity].
Qed.

Lemma rstrip_cons (c : ascii) (r : text) :
  isspace c = false -> rstrip (c :: r) = c :: rstrip r.
Proof.
  intros Hc. unfold rstrip. cbn [rev].
  rewrite (lstrip_snoc _ _ Hc), rev_app_distr. reflexivity.
Qed.

Lemma rstrip_idem (s : text) : rstrip (rstrip s) = rstrip s.
Proof. unfold rstrip. by rewrite rev_involutive, lstrip_idem. Qed.

Lemma lstrip_cases (s : text) :
  lstrip s = [] \/ exists c r, lstrip s = c :: r /\ isspace c = false.
Proof.
  induction s as [|c r IH]; [by left|].
  cbn [lstrip]. destruct (isspace c) eqn:Hc; [exact IH|].
  right. by exists c, r.
Qed.

Lemma strip_idem (s : text) : strip (strip s) = strip s.
Proof.
  unfold strip. destruct (lstrip_cases s) as [-> | (c & r & -> & Hc)];
    [reflexivity|].
  rewrite (rstrip_cons _ _ Hc). cbn [lstrip]. rewrite Hc.
  by rewrite (rstrip_cons _ _ Hc), rstrip_idem.
Qed.

(** ** The manager beyond the claims *)

Lemma compact_setup (st st' : State) (r : result unit) :
  _compact st = (r, st') -> same_setup (self st) (self st').
Proof.
  rewrite compact_unfold. unfold compact_outcome. cbv zeta.
  destruct (active_turns (self st)).
  { intros H. injection H as _ <-. by repeat split. }
  destruct (append _ _ _ _) as [[[]|e] w1].
  2:{ intros H. injection H as _ <-. by repeat split. }
  destruct (LlmSummarizer.compact _ _ _ _) as [[s|e] w2];
    intros H; injection H as _ <-; by repeat split.
Qed.

Lemma compact_trimmed (st st' : State) (r : result unit) :
  _compact st = (r, st') -> trimmed (self st) -> trimmed (self st').
Proof.
  rewrite compact_unfold. unfold compact_outcome, trimmed. cbv zeta.
  destruct (active_turns (self st)).
  { intros H. by injection H as _ <-. }
  destruct (append _ _ _ _) as [[[]|e] w1].
  2:{ intros H. by injection H as _ <-. }
  destruct (LlmSummarizer.compact _ _ _ _) as [[s|e] w2];
    intros H; injection H as _ <-; [|done].
  intros _. cbn [self rolling_summary]. apply strip_idem.
Qed.

Lemma compaction_step_self (st st1 : State) (r : result unit) :
  compaction_step st = (r, st1) ->
  same_setup (self st) (self st1)
  /\ (trimmed (self st) -> trimmed (self st1)).
Proof.
  unfold compaction_step. destruct (_should_compact (self st)).
  - intros H. split; [exact (compact_setup _ _ _ H) | exact (compact_trimmed _ _ _ H)].
  - intros H. injection H as _ <-. by repeat split.
Qed.

Lemma build_messages_self (sp um : text) (hq : option text) (st st' : State)
    (r : result (list Message * PromptLedger)) :
  build_messages sp um hq st = (r, st') ->
  exists (st1 : State) (r1 : result unit),
    compaction_step st = (r1, st1) /\ self st' = self st1.
Proof.
  rewrite build_messages_unfold.
  destruct (compaction_step st) as [[[]|e] st1] eqn:Hc.
  - destruct (history_step hq st1) as [[hits|e] st2] eqn:Hh;
      intros H; injection H as _ <-; exists st1, (Ok tt);
      (split; [reflexivity | by apply history_step_self in Hh]).
  - intros H. injection H as _ <-. by exists st1, (Exc e).
Qed.

(** X14. The configuration, the store, the summarizer and the session
    identifier are set by [__init__] and never change: recording a turn,
    [_compact] and [build_messages] keep them, whatever the outcome. *)
Theorem setup_never_changes (st : State) :
  (forall (role content ts id : text) (r : result unit) (st' : State),
      _add_turn role content ts id st = (r, st') ->
      same_setup (self st) (self st'))
  /\ (forall (r : result unit) (st' : State),
         _compact st = (r, st') -> same_setup (self st) (self st'))
  /\ (forall (sp um : text) (hq : option text)
             (r : result (list Message * PromptLedger)) (st' : State),
         build_messages sp um hq st = (r, st') ->
         same_setup (self st) (self st')).
Proof.
  split; [|split].
  - intros role content ts id r st' H. injection H as _ <-. by repeat split.
  - intros r st'. apply compact_setup.
  - intros sp um hq r st' H.
    apply build_messages_self in H as (st1 & r1 & Hc & ->).
    by apply compaction_step_self in Hc as [? _].
Qed.

(** X15. The rolling summary never carries surrounding whitespace: it is
    empty after [__init__], and recording a turn, [_compact] and
    [build_messages] keep it trimmed, whatever the outcome; trimming twice
    is trimming once. *)
Theorem rolling_summary_stays_trimmed (st : State) :
  (forall (c : MemoryConfig) (s : JsonlHistoryStore.t) (sm : LlmSummarizer.t)
          (sid : text), trimmed (__init__ c s sm sid))
  /\ (forall s : text, strip (strip s) = strip s)
  /\ (trimmed (self st) ->
      (forall (role content ts id : text) (r : result unit) (st' : State),
          _add_turn role content ts id st = (r, st') -> trimmed (self st'))
      /\ (forall (r : result unit) (st' : State),
             _compact st = (r, st') -> trimmed (self st'))
      /\ (forall (sp um : text) (hq : option text)
                 (r : result (list Message * PromptLedger)) (st' : State),
             build_messages sp um hq st = (r, st') -> trimmed (self st'))).
Proof.
  split; [reflexivity|]. split; [exact strip_idem|].
  intros Ht. split; [|split].
  - intros role content ts id r st' H. by injection H as _ <-.
  - intros r st' H. by apply (compact_trimmed _ _ _ H).
  - intros sp um hq r st' H.
    apply build_messages_self in H as (st1 & r1 & Hc & Hs).
    unfold trimmed. rewrite Hs.
    apply compaction_step_self in Hc as [_ Hk]. by apply Hk.
Qed.


(** ** What the ledger says about the messages *)

Lemma summary_block_length (m : AgentMemoryManager.t) :
  length (summary_block m)
  = Nat.b2n (negb (text_eqb (strip (rolling_summary m)) [])).
Proof. unfold summary_block. by destruct (strip (rolling_summary m)). Qed.

(** X7. The ledger tells the truth about the messages: the message list
    has the system prompt, the user message, one summary message exactly
    when [included_summary] is set, [included_active_turns] turn messages
    and one history message exactly when [included_history_hits] is not
    zero; the turn messages sit right after the summary, in the order of
    the active turns left in the manager. *)
Theorem ledger_matches_messages (sp um : text) (hq : option text)
    (st st' : State) (msgs : list Message) (ledger : PromptLedger) :
  build_messages sp um hq st = (Ok (msgs, ledger), st') ->
  length msgs
  = 2 + Nat.b2n (included_summary ledger) + included_active_turns ledger
    + (if included_history_hits ledger =? 0 then 0 else 1)
  /\ included_active_turns ledger = length (active_turns (self st'))
  /\ take (included_active_turns ledger)
       (drop (1 + Nat.b2n (included_summary ledger)) msgs)
     = map (fun t => mkMessage (t_role t) (t_content t)) (active_turns (self st'))
  /\ l_session_id ledger = session_id (self st')
  /\ n_history_query (notes ledger) = hq.
Proof.
  intros H. apply build_messages_ok in H as (st1 & hits & _ & _ & _ & Ha).
  unfold assemble in Ha.
  destruct (result_map render_hit hits) as [lines|] eqn:Hl; [|discriminate].
  destruct (result_map hit_tokens hits); [|discriminate].
  injection Ha as <- <-.
  cbn [included_summary included_active_turns included_history_hits
       l_session_id notes n_history_query].
  pose proof (result_map_length _ _ _ Hl) as Hlen.
  pose proof (summary_block_length (self st')) as Hsum.
  set (turns := map (fun t => mkMessage (t_role t) (t_content t))
                    (active_turns (self st'))).
  assert (Hturns : length turns = length (active_turns (self st')))
    by apply length_map.
  assert (Hhist : length (history_block lines)
                  = if length hits =? 0 then 0 else 1).
  { unfold history_block. destruct hits, lines; try discriminate; reflexivity. }
  split; [|split; [reflexivity|split; [|split; reflexivity]]].
  - cbn [length]. rewrite !length_app, Hsum, Hturns, Hhist. cbn [length]. lia.
  - cbn [Nat.add drop]. rewrite <- Hsum.
    rewrite drop_app_length, <- Hturns. by rewrite take_app_length.
Qed.

(** ** The budget after [build_messages] *)

Lemma should_compact_empty (m : AgentMemoryManager.t) :
  (0 < max_turns (cfg m))%Z -> (0 < max_tokens (cfg m))%Z ->
  active_turns m = [] -> _should_compact m = false.
Proof.
  intros Ht Hk Ha. unfold _should_compact. rewrite Ha.
  change (Z.of_nat (length [])) with 0%Z.
  change (Z.of_nat (_estimate_tokens [])) with 0%Z.
  destruct (Z.leb_spec (max_turns (cfg m)) 0); [lia|].
  destruct (Z.leb_spec (max_tokens (cfg m)) 0); [lia | reflexivity].
Qed.

Lemma should_compact_false (m : AgentMemoryManager.t) :
  _should_compact m = false ->
  (Z.of_nat (length (active_turns m)) < max_turns (cfg m))%Z
  /\ (Z.of_nat (_estimate_tokens (active_turns m)) < max_tokens (cfg m))%Z.
Proof.
  unfold _should_compact.
  destruct (Z.leb_spec (max_turns (cfg m)) (Z.of_nat (length (active_turns m))));
    [discriminate|].
  destruct (Z.leb_spec (max_tokens (cfg m))
              (Z.of_nat (_estimate_tokens (active_turns m)))); [discriminate|].
  by split.
Qed.

(** X8. With positive thresholds, what a successful [build_messages]
    hands to the model is under budget: the active turns left are fewer
    than [max_turns], their token estimate is below [max_tokens], and no
    compaction is due. *)
Theorem build_messages_leaves_budget (sp um : text) (hq : option text)
    (st st' : State) (msgs : list Message) (ledger : PromptLedger) :
  (0 < max_turns (cfg (self st)))%Z ->
  (0 < max_tokens (cfg (self st)))%Z ->
  build_messages sp um hq st = (Ok (msgs, ledger), st') ->
  _should_compact (self st') = false
  /\ (Z.of_nat (included_active_turns ledger) < max_turns (cfg (self st)))%Z
  /\ (Z.of_nat (_estimate_tokens (active_turns (self st')))
      < max_tokens (cfg (self st)))%Z.
Proof.
  intros Ht Hk H.
  pose proof H as H0.
  apply build_messages_ok in H as (st1 & hits & Hc & _ & Hs & Ha).
  assert (Hcount : included_active_turns ledger = length (active_turns (self st'))).
  { unfold assemble in Ha.
    destruct (result_map render_hit hits); [|discriminate].
    destruct (result_map hit_tokens hits); [|discriminate].
    by injection Ha as _ <-. }
  destruct (compaction_step_self _ _ _ Hc) as [(Hcfg & _) _].
  assert (Hno : _should_compact (self st') = false).
  { rewrite Hs. unfold compaction_step in Hc.
    destruct (_should_compact (self st)) eqn:Hsc.
    - apply should_compact_empty; rewrite ?Hcfg; try assumption.
      destruct (compact_active_cases _ _ _ Hc) as [Hsame | [_ Hnil]];
        [|exact Hnil].
      rewrite Hsame.
      destruct (active_turns (self st)) as [|t ts] eqn:Hact; [reflexivity|].
      exfalso. rewrite (compact_nonempty st) in Hc by (rewrite Hact; discriminate).
      cbv zeta in Hc.
      destruct (append _ _ _ _) as [[[]|e] w1]; [|discriminate].
      destruct (LlmSummarizer.compact _ _ _ _) as [[s|e] w2]; [|discriminate].
      injection Hc as <-. cbn in Hsame. discriminate.
    - injection Hc as <-. exact Hsc. }
  split; [exact Hno|].
  apply should_compact_false in Hno as [Hn He].
  rewrite Hs in Hn, He. rewrite Hcfg in Hn, He. rewrite Hcount, Hs. by split.
Qed.

(** ** [build_messages] without compaction *)

Lemma history_step_frame (hq : option text) (st st' : State)
    (r : result (list Hit)) :
  history_step hq st = (r, st') ->
  self st' = self st
  /\ files (world st') = files (world st)
  /\ write_budget (world st') = write_budget (world st).
Proof.
  unfold history_step. destruct hq as [[|c q]|]; intros H;
    try (injection H as _ <-; by repeat split).
  apply in_world_self in H as [Hs Hk].
  apply keyword_search_files in Hk as [? ?]. by repeat split.
Qed.

Lemma history_step_blank (q : text) (st : State) :
  lower (strip q) = [] -> history_step (Some q) st = (Ok [], st).
Proof.
  intros Hq. unfold history_step. destruct q as [|c q]; [reflexivity|].
  unfold in_world, keyword_search. rewrite Hq. by destruct st.
Qed.

Lemma assemble_no_hits (sp um : text) (hq : option text)
    (m : AgentMemoryManager.t) :
  exists (msgs : list Message) (ledger : PromptLedger),
    assemble sp um hq m [] = Ok (msgs, ledger).
Proof. by eexists _, _. Qed.

(** X9. When no compaction is due, [build_messages] neither writes nor
    changes the manager, whatever it returns; and without a query, or with
    one that is blank, it cannot fail and leaves the whole state, trace
    included, as it was. *)
Theorem build_messages_idle (sp um : text) (st : State) :
  _should_compact (self st) = false ->
  (forall (hq : option text) (r : result (list Message * PromptLedger))
          (st' : State),
      build_messages sp um hq st = (r, st') ->
      self st' = self st
      /\ files (world st') = files (world st)
      /\ write_budget (world st') = write_budget (world st))
  /\ (forall hq : option text,
         match hq with
         | Some q => lower (strip q) = []
         | None => True
         end ->
         exists (msgs : list Message) (ledger : PromptLedger),
           build_messages sp um hq st = (Ok (msgs, ledger), st)).
Proof.
  intros Hsc. split.
  - intros hq r st'. rewrite build_messages_unfold. unfold compaction_step.
    rewrite Hsc.
    destruct (history_step hq st) as [[hits|e] st2] eqn:Hh;
      intros H; injection H as _ <-; by apply history_step_frame in Hh.
  - intros hq Hq. rewrite build_messages_unfold. unfold compaction_step.
    rewrite Hsc.
    assert (Hh : history_step hq st = (Ok [], st)).
    { destruct hq as [q|]; [by apply history_step_blank | reflexivity]. }
    rewrite Hh. destruct (assemble_no_hits sp um hq (self st)) as (m & l & ->).
    by exists m, l.
Qed.

(** X10. A query that is blank after trimming is the same as no query:
    [build_messages] returns the same messages, raises the same exceptions
    and reaches the same state; the ledgers differ only by the query kept
    in the notes. *)
Theorem blank_query_is_no_query (sp um q : text) (st : State) :
  lower (strip q) = [] ->
  build_messages sp um None st
  = (match fst (build_messages sp um (Some q) st) with
     | Ok (msgs, ledger) => Ok (msgs, without_query ledger)
     | Exc e => Exc e
     end,
     snd (build_messages sp um (Some q) st)).
Proof.
  intros Hq. rewrite !build_messages_unfold.
  destruct (compaction_step st) as [[[]|e] st1]; [|reflexivity].
  rewrite (history_step_blank _ _ Hq). reflexivity.
Qed.


(** ** Where [build_messages] can fail *)

Lemma str_count_empty (q : text) : q <> [] -> str_count [] q = 0.
Proof. by destruct q. Qed.

Lemma row_score_positive (q : text) (row : value) (n : nat) :
  q <> [] -> row_score q row = Ok n -> 0 < n -> renderable (mkHit n row).
Proof.
  intros Hq Hs Hn. unfold row_score, value_get in Hs.
  destruct row as [| | | | | |d]; try discriminate.
  assert (Hzero : Ok (str_count (lower []) q) = Ok n -> False).
  { cbn [lower map]. rewrite (str_count_empty _ Hq). intros H.
    injection H as <-. lia. }
  destruct (dict_lookup (tx "content") d) as [v|] eqn:Hv;
    [|by apply Hzero in Hs].
  change (default VNone (Some v)) with v in Hs.
  destruct v as [|b|z|lit|s|l|d']; cbn [truthy] in Hs.
  - by apply Hzero in Hs.
  - destruct b; [discriminate | by apply Hzero in Hs].
  - destruct (negb (z =? 0)%Z); [discriminate | by apply Hzero in Hs].
  - destruct (negb (all_zero_mantissa lit)); [discriminate | by apply Hzero in Hs].
  - exists d, s. by split.
  - destruct l; [by apply Hzero in Hs | discriminate].
  - destruct d'; [by apply Hzero in Hs | discriminate].
Qed.

Lemma collect_hits_renderable (q : text) (rows : list value) :
  q <> [] ->
  forall hs : list Hit, collect_hits q rows = Ok hs -> Forall renderable hs.
Proof.
  intros Hq. induction rows as [|row rows IH]; intros hs H; cbn in H.
  - injection H as <-. constructor.
  - destruct (row_score q row) as [n|] eqn:Hn; [|discriminate].
    destruct (collect_hits q rows) as [hs'|]; [|discriminate].
    injection H as <-. destruct n as [|n]; [by apply IH|].
    constructor; [apply (row_score_positive q); [done | done | lia] | by apply IH].
Qed.

Lemma slice_to_forall {A} (P : A -> Prop) (k : Z) (l : list A) :
  Forall P l -> Forall P (slice_to k l).
Proof. intros H. unfold slice_to. destruct (0 <=? k)%Z; by apply Forall_take. Qed.

Lemma keyword_search_renderable (s : JsonlHistoryStore.t) (sid query : text)
    (k : Z) (w w' : World) (hits : list Hit) :
  keyword_search s sid query k w = (Ok hits, w') -> Forall renderable hits.
Proof.
  destruct (lower (strip query)) as [|c q] eqn:Hq.
  - unfold keyword_search. rewrite Hq. intros H. injection H as <- _. constructor.
  - rewrite keyword_search_unfold by (rewrite Hq; discriminate). rewrite Hq.
    destruct (read_all s sid w) as [[rows|e] w1]; [|discriminate].
    destruct (collect_hits (c :: q) rows) as [hs|e] eqn:Hc; [|discriminate].
    intros H. injection H as <- _. apply slice_to_forall.
    eapply Permutation_Forall; [symmetry; apply sort_desc_perm|].
    by apply (collect_hits_renderable (c :: q) rows).
Qed.

Lemma result_map_total {A B} (f : A -> result B) (l : list A) :
  Forall (fun x => exists y, f x = Ok y) l -> exists l', result_map f l = Ok l'.
Proof.
  induction 1 as [|x l [y Hy] _ [l' IH]]; [by exists []|].
  exists (y :: l'). cbn. by rewrite Hy, IH.
Qed.

Lemma renderable_hits_assemble (sp um : text) (hq : option text)
    (m : AgentMemoryManager.t) (hits : list Hit) :
  Forall renderable hits ->
  exists (msgs : list Message) (ledger : PromptLedger),
    assemble sp um hq m hits = Ok (msgs, ledger).
Proof.
  intros Hr. unfold assemble.
  destruct (result_map_total render_hit hits) as [lines ->].
  { eapply Forall_impl; [exact Hr|]. intros h (d & s & Ht & Hc).
    unfold render_hit, value_get. rewrite Ht. by eexists. }
  destruct (result_map_total hit_tokens hits) as [ests ->].
  { eapply Forall_impl; [exact Hr|]. intros h (d & s & Ht & Hc).
    unfold hit_tokens. rewrite Ht, Hc. by eexists. }
  by eexists _, _.
Qed.

(** X11. [build_messages] fails only where its collaborators fail: an
    exception is the one raised by a due [_compact] (the archive write or
    the model client), or the one raised by the search of a non-empty
    query; rendering the hits and filling the ledger never raise. *)
Theorem build_messages_error_sources (sp um : text) (hq : option text)
    (st st' : State) (e : exn) :
  build_messages sp um hq st = (Exc e, st') ->
  (_should_compact (self st) = true /\ _compact st = (Exc e, st'))
  \/ (exists (st1 : State) (q : text),
         hq = Some q /\ q <> []
         /\ compaction_step st = (Ok tt, st1)
         /\ in_world (keyword_search (store (self st1)) (session_id (self st1))
                        q (search_top_k (cfg (self st1)))) st1
            = (Exc e, st')).
Proof.
  rewrite build_messages_unfold.
  destruct (compaction_step st) as [[[]|e1] st1] eqn:Hc.
  - destruct (history_step hq st1) as [[hits|e2] st2] eqn:Hh.
    + assert (Hr : Forall renderable hits).
      { unfold history_step in Hh. destruct hq as [[|c q]|];
          try (injection Hh as <- _; constructor).
        apply in_world_self in Hh as [_ Hk].
        by apply keyword_search_renderable in Hk. }
      destruct (renderable_hits_assemble sp um hq (self st1) hits Hr)
        as (m & l & ->).
      discriminate.
    + intros H. injection H as <- <-. right.
      unfold history_step in Hh. destruct hq as [[|c q]|]; try discriminate.
      exists st1, (c :: q). by repeat split.
  - intros H. injection H as <- <-. left.
    unfold compaction_step in Hc.
    destruct (_should_compact (self st)); [by split | discriminate].
Qed.

(** ** A compaction that fails after archiving *)

Lemma compact_after_append (st : State) (w1 : World) :
  active_turns (self st) <> [] ->
  append (store (self st)) (session_id (self st))
    (map turn_dict (active_turns (self st))) (world st) = (Ok tt, w1) ->
  exists (r : result unit) (st' : State),
    _compact st = (r, st')
    /\ files (world st') = files w1
    /\ write_budget (world st') = write_budget w1
    /\ (forall e : exn,
           LlmSummarizer.llm_client (summarizer (self st))
             LlmSummarizer.system_prompt
             (LlmSummarizer.user_prompt (rolling_summary (self st))
                (recent_slice (active_turns (self st)))) = Exc e ->
           r = Exc e /\ self st' = self st).
Proof.
  intros Hne Happ. rewrite (compact_nonempty _ Hne). cbv zeta.
  rewrite Happ, summarizer_compact_run.
  destruct (LlmSummarizer.llm_client _ _ _) as [out|e0].
  - eexists _, _. split; [reflexivity|]. split; [reflexivity|].
    split; [reflexivity|]. intros e' He. discriminate He.
  - eexists _, _. split; [reflexivity|]. split; [reflexivity|].
    split; [reflexivity|]. intros e' He. injection He as <-. by split.
Qed.

(** X12. A compaction that fails in the summarizer has already archived
    the turns and keeps them active, so the next compaction, whatever the
    summarizer then answers, writes the same records a second time. *)
Theorem failed_compaction_archives_again (st : State) (e : exn) :
  active_turns (self st) <> [] ->
  write_budget (world st) = None ->
  LlmSummarizer.llm_client (summarizer (self st)) LlmSummarizer.system_prompt
    (LlmSummarizer.user_prompt (rolling_summary (self st))
       (recent_slice (active_turns (self st)))) = Exc e ->
  let p := _path (store (self st)) (session_id (self st)) in
  let records := records_text (map turn_dict (active_turns (self st))) in
  exists st1 : State,
    _compact st = (Exc e, st1)
    /\ active_turns (self st1) = active_turns (self st)
    /\ files (world st1) !! p
       = Some (default [] (files (world st) !! p) ++ records)
    /\ forall sm : LlmSummarizer.t,
         exists (r : result unit) (st2 : State),
           _compact (mkState (with_summarizer sm (self st1)) (world st1)) = (r, st2)
           /\ files (world st2) !! p
              = Some (default [] (files (world st) !! p) ++ records ++ records).
Proof.
  intros Hne Hb Hllm p records. subst p records.
  destruct (append_unlimited (store (self st)) (session_id (self st))
              (map turn_dict (active_turns (self st))) (world st) Hb)
    as (w1 & Happ & Hb1).
  destruct (compact_after_append st w1 Hne Happ)
    as (r & st1 & Hc & Hf1 & Hbud1 & Hfail).
  destruct (Hfail e Hllm) as [-> Hself].
  exists st1. split; [exact Hc|]. split; [by rewrite Hself|].
  pose proof (append_files _ _ _ _ _ Happ) as Hfiles.
  assert (Hfile1 : files (world st1) !! _path (store (self st)) (session_id (self st))
                   = Some (default [] (files (world st)
                                       !! _path (store (self st)) (session_id (self st)))
                           ++ records_text (map turn_dict (active_turns (self st))))).
  { rewrite Hf1, Hfiles. apply lookup_insert_eq. }
  split; [exact Hfile1|].
  intros sm.
  set (st1' := mkState (with_summarizer sm (self st1)) (world st1)).
  assert (Hne' : active_turns (self st1') <> []) by (cbn; by rewrite Hself).
  destruct (append_unlimited (store (self st1')) (session_id (self st1'))
              (map turn_dict (active_turns (self st1'))) (world st1'))
    as (w3 & Happ' & _).
  { cbn. by rewrite Hbud1. }
  destruct (compact_after_append st1' w3 Hne' Happ')
    as (r & st2 & Hc' & Hf2 & _ & _).
  exists r, st2. split; [exact Hc'|].
  rewrite Hf2, (append_files _ _ _ _ _ Happ'). subst st1'.
  cbn [self world with_summarizer store session_id active_turns].
  rewrite Hself.
  rewrite lookup_insert_eq, Hfile1. cbn [default from_option id].
  by rewrite <- app_assoc.
Qed.


(** ** A due compaction, from recording to reading back *)

Lemma read_back_records (s : JsonlHistoryStore.t) (sid : text)
    (turns : list Turn) (w : World) :
  Forall (fun t => is_float_repr (t_ts t) = true) turns ->
  files w !! _path s sid = Some (records_text (map turn_dict turns)) ->
  fst (read_all s sid w) = Ok (map turn_dict turns).
Proof.
  intros Hts Hf. rewrite read_all_result, Hf.
  rewrite file_lines_records.
  - apply result_map_all. clear Hf. induction Hts as [|t ts Ht _ IH];
      [constructor|].
    cbn [map]. constructor; [by apply json_loads_turn | exact IH].
  - apply Forall_map. eapply Forall_impl; [exact Hts|].
    intros t Ht. by apply turn_json_no_newline.
Qed.

(** X13. A due compaction end to end, on a fresh session with a device
    that accepts the writes and a client that answers: [build_messages]
    succeeds, no active turn is left or sent, the rolling summary is the
    client's answer trimmed, cut to [summary_max_chars] and trimmed again,
    and [read_all] then returns exactly the turns that were active. *)
Theorem due_compaction_round_trip (sp um : text) (st : State) (out : text) :
  let m := self st in
  files (world st) !! _path (store m) (session_id m) = None ->
  write_budget (world st) = None ->
  Forall (fun t => is_float_repr (t_ts t) = true) (active_turns m) ->
  active_turns m <> [] ->
  _should_compact m = true ->
  LlmSummarizer.llm_client (summarizer m) LlmSummarizer.system_prompt
    (LlmSummarizer.user_prompt (rolling_summary m)
       (drop (length (active_turns m) - 10) (active_turns m))) = Ok out ->
  exists (msgs : list Message) (ledger : PromptLedger) (st' : State),
    build_messages sp um None st = (Ok (msgs, ledger), st')
    /\ active_turns (self st') = []
    /\ included_active_turns ledger = 0
    /\ rolling_summary (self st')
       = strip (slice_to (summary_max_chars (cfg m)) (strip out))
    /\ fst (read_all (store m) (session_id m) (world st'))
       = Ok (map turn_dict (active_turns m)).
Proof.
  intros m Hnew Hb Hts Hne Hsc Hllm. subst m.
  destruct (append_unlimited (store (self st)) (session_id (self st))
              (map turn_dict (active_turns (self st))) (world st) Hb)
    as (w1 & Happ & _).
  pose proof (append_files _ _ _ _ _ Happ) as Hfiles.
  rewrite Hnew in Hfiles. cbn [default from_option id app] in Hfiles.
  rewrite build_messages_unfold. unfold compaction_step. rewrite Hsc.
  rewrite (compact_nonempty _ Hne). cbv zeta.
  rewrite Happ, summarizer_compact_run, recent_slice_last_ten, Hllm.
  cbn [history_step].
  match goal with
  | |- context [assemble sp um None ?m []] =>
      destruct (assemble_no_hits sp um None m) as (msgs & ledger & Ha)
  end.
  rewrite Ha. exists msgs, ledger. eexists. split; [reflexivity|].
  cbn [self world active_turns rolling_summary files].
  split; [reflexivity|]. split.
  { unfold assemble in Ha. cbn in Ha. by injection Ha as _ <-. }
  split; [reflexivity|].
  apply read_back_records; [exact Hts|].
  cbn [files]. rewrite Hfiles. apply lookup_insert_eq.
Qed.

(** ** The summarizer *)

Lemma transcript_skips (pre post : list Turn) (t : Turn) :
  LlmSummarizer.in_transcript t = false ->
  LlmSummarizer.transcript (pre ++ t :: post) = LlmSummarizer.transcript (pre ++ post).
Proof.
  intros Ht. unfold LlmSummarizer.transcript.
  rewrite !List.filter_app. cbn [List.filter]. by rewrite Ht.
Qed.

(** X16. What the summarizer sends and returns: a turn whose role is
    neither user nor assistant, or whose content is blank, does not change
    the prompt; the previous summary enters the prompt trimmed; a turn
    recorded by [add_user] or [add_assistant] is in the transcript exactly
    when its content is not blank; the answer comes back trimmed, an
    exception of the client comes back as it is, and the files are not
    touched. *)
Theorem summarizer_prompt_and_answer (prev : text) :
  (forall (pre post : list Turn) (t : Turn),
      LlmSummarizer.in_transcript t = false ->
      LlmSummarizer.user_prompt prev (pre ++ t :: post)
      = LlmSummarizer.user_prompt prev (pre ++ post))
  /\ (forall turns : list Turn,
         LlmSummarizer.user_prompt (strip prev) turns
         = LlmSummarizer.user_prompt prev turns)
  /\ (forall (content ts id : text) (st : State),
         let added role :=
           last (active_turns (self (snd (_add_turn role content ts id st)))) in
         (LlmSummarizer.in_transcript <$> added (tx "user"))
         = Some (negb (text_eqb (strip content) []))
         /\ (LlmSummarizer.in_transcript <$> added (tx "assistant"))
            = Some (negb (text_eqb (strip content) [])))
  /\ (forall (sm : LlmSummarizer.t) (turns : list Turn) (w w' : World)
             (r : result text),
         LlmSummarizer.compact sm prev turns w = (r, w') ->
         files w' = files w /\ write_budget w' = write_budget w
         /\ match r with
            | Ok s =>
                strip s = s
                /\ exists answer : text,
                     LlmSummarizer.llm_client sm LlmSummarizer.system_prompt
                       (LlmSummarizer.user_prompt prev turns) = Ok answer
                     /\ s = strip answer
            | Exc e =>
                LlmSummarizer.llm_client sm LlmSummarizer.system_prompt
                  (LlmSummarizer.user_prompt prev turns) = Exc e
            end).
Proof.
  split; [|split; [|split]].
  - intros pre post t Ht. unfold LlmSummarizer.user_prompt.
    by rewrite (transcript_skips _ _ _ Ht).
  - intros turns. unfold LlmSummarizer.user_prompt. by rewrite strip_idem.
  - intros content ts id st. cbv zeta. cbn [_add_turn update_self m_modify snd
      self active_turns set_active].
    rewrite !last_snoc. cbn [fmap option_fmap option_map].
    unfold LlmSummarizer.in_transcript. cbn [t_role t_content].
    split; reflexivity.
  - intros sm turns w w' r. rewrite summarizer_compact_run.
    destruct (LlmSummarizer.llm_client sm _ _) as [answer|e] eqn:Hc;
      intros H; injection H as <- <-; cbn [files write_budget];
      (split; [reflexivity|]; split; [reflexivity|]).
    + split; [apply strip_idem|]. by exists answer.
    + reflexivity.
Qed.

(** X17. A negative [summary_max_chars] does not cap the summary: the
    slice counts from the end, so a successful compaction keeps the
    summarizer's answer without its last [- summary_max_chars] characters,
    then trimmed. *)
Theorem negative_summary_cap_drops_tail (st st' : State) :
  active_turns (self st) <> [] ->
  (summary_max_chars (cfg (self st)) < 0)%Z ->
  _compact st = (Ok tt, st') ->
  exists answer : text,
    LlmSummarizer.llm_client (summarizer (self st)) LlmSummarizer.system_prompt
      (LlmSummarizer.user_prompt (rolling_summary (self st))
         (drop (length (active_turns (self st)) - 10) (active_turns (self st))))
    = Ok answer
    /\ rolling_summary (self st')
       = strip (take (length (strip answer)
                      - Z.to_nat (- summary_max_chars (cfg (self st))))
                  (strip answer)).
Proof.
  intros Hne Hcap Hc. rewrite (compact_nonempty _ Hne) in Hc. cbv zeta in Hc.
  destruct (append _ _ _ _) as [[[]|e] w1]; [|discriminate].
  rewrite summarizer_compact_run, recent_slice_last_ten in Hc.
  destruct (LlmSummarizer.llm_client _ _ _) as [answer|e]; [|discriminate].
  injection Hc as <-. exists answer. split; [reflexivity|].
  cbn [self rolling_summary]. unfold slice_to.
  destruct (Z.leb_spec 0 (summary_max_chars (cfg (self st)))); [lia | reflexivity].
Qed.


(** ** The archive only grows *)

Lemma extends_refl (w w' : World) : files w' = files w -> extends w w'.
Proof.
  intros Hf p old Hp. exists []. by rewrite Hf, app_nil_r.
Qed.

Lemma extends_trans (w1 w2 w3 : World) :
  extends w1 w2 -> extends w2 w3 -> extends w1 w3.
Proof.
  intros H12 H23 p old Hp.
  destruct (H12 _ _ Hp) as [m1 H1]. destruct (H23 _ _ H1) as [m2 H2].
  exists (m1 ++ m2). by rewrite H2, app_assoc.
Qed.

Lemma file_write_extends (p data : text) (w w' : World) (r : result unit) :
  file_write p data w = (r, w') -> extends w w'.
Proof.
  unfold file_write. intros H p' old Hp.
  assert (Hgo : forall b tr,
             exists more,
               files (mkWorld (<[p := default [] (files w !! p) ++ data]> (files w))
                        b tr) !! p' = Some (old ++ more)).
  { intros b tr. cbn [files]. destruct (decide (p = p')) as [<-|Hne].
    - exists data. by rewrite lookup_insert_eq, Hp.
    - exists []. by rewrite lookup_insert_ne, app_nil_r. }
  destruct (write_budget w) as [[|b]|]; injection H as _ <-.
  - exists []. by rewrite app_nil_r.
  - apply Hgo.
  - apply Hgo.
Qed.

Lemma write_turns_extends (p : text) (turns : list value) :
  forall (w w' : World) (r : result unit),
    write_turns p turns w = (r, w') -> extends w w'.
Proof.
  induction turns as [|t rest IH]; intros w w' r H.
  - cbn in H. injection H as _ <-. by apply extends_refl.
  - cbn [write_turns] in H. unfold m_bind in H.
    destruct (file_write p (json_dumps t ++ nl) w) as [[[]|e] w1] eqn:Hw.
    + eapply extends_trans; [by eapply file_write_extends | by eapply IH].
    + injection H as _ <-. by eapply file_write_extends.
Qed.

Lemma append_extends (s : JsonlHistoryStore.t) (sid : text) (turns : list value)
    (w w' : World) (r : result unit) :
  append s sid turns w = (r, w') -> extends w w'.
Proof.
  unfold append, m_bind, open_append. intros H.
  eapply extends_trans; [|by eapply write_turns_extends].
  intros p old Hp. cbn [files]. exists [].
  destruct (decide (_path s sid = p)) as [<-|Hne].
  - by rewrite lookup_insert_eq, Hp, app_nil_r.
  - by rewrite lookup_insert_ne, app_nil_r.
Qed.

Lemma compact_extends (st st' : State) (r : result unit) :
  _compact st = (r, st') -> extends (world st) (world st').
Proof.
  rewrite compact_unfold. unfold compact_outcome. cbv zeta.
  destruct (active_turns (self st)).
  { intros H. injection H as _ <-. by apply extends_refl. }
  destruct (append _ _ _ _) as [[[]|e] w1] eqn:Happ.
  2:{ intros H. injection H as _ <-. by eapply append_extends. }
  rewrite summarizer_compact_run.
  destruct (LlmSummarizer.llm_client _ _ _);
    intros H; injection H as _ <-;
    (eapply extends_trans; [by eapply append_extends | by apply extends_refl]).
Qed.

(** X19. The archive is append-only: after [append], [read_all],
    [keyword_search], [_compact] or [build_messages], whatever the outcome,
    every file that existed still exists and begins with the text it had;
    nothing archived is ever removed or rewritten. *)
Theorem archive_only_grows (st : State) :
  (forall (s : JsonlHistoryStore.t) (sid : text) (turns : list value)
          (r : result unit) (w' : World),
      append s sid turns (world st) = (r, w') -> extends (world st) w')
  /\ (forall (s : JsonlHistoryStore.t) (sid query : text) (k : Z)
             (r : result (list Hit)) (w' : World),
         keyword_search s sid query k (world st) = (r, w') ->
         extends (world st) w')
  /\ (forall (s : JsonlHistoryStore.t) (sid : text)
             (r : result (list value)) (w' : World),
         read_all s sid (world st) = (r, w') -> extends (world st) w')
  /\ (forall (r : result unit) (st' : State),
         _compact st = (r, st') -> extends (world st) (world st'))
  /\ (forall (sp um : text) (hq : option text)
             (r : result (list Message * PromptLedger)) (st' : State),
         build_messages sp um hq st = (r, st') ->
         extends (world st) (world st')).
Proof.
  split; [|split; [|split; [|split]]].
  - intros s sid turns r w'. apply append_extends.
  - intros s sid query k r w' H. apply extends_refl.
    by apply keyword_search_files in H as [? _].
  - intros s sid r w' H. apply extends_refl. by apply read_all_files in H as [? _].
  - intros r st'. apply compact_extends.
  - intros sp um hq r st'. rewrite build_messages_unfold.
    assert (Hstep : forall r1 st1, compaction_step st = (r1, st1) ->
                                   extends (world st) (world st1)).
    { intros r1 st1. unfold compaction_step.
      destruct (_should_compact (self st)); [apply compact_extends|].
      intros H. injection H as _ <-. by apply extends_refl. }
    destruct (compaction_step st) as [[[]|e] st1] eqn:Hc.
    + destruct (history_step hq st1) as [[hits|e] st2] eqn:Hh;
        intros H; injection H as _ <-;
        (eapply extends_trans; [by eapply Hstep|]);
        apply extends_refl; by apply history_step_frame in Hh as (_ & ? & _).
    + intros H. injection H as _ <-. by eapply Hstep.
Qed.

(** X18. A due compaction stays due: recording one more turn does not
    take the active set back under a threshold it had reached. *)
Theorem compaction_stays_due (st : State) (role content ts id : text) :
  _should_compact (self st) = true ->
  _should_compact (self (snd (_add_turn role content ts id st))) = true.
Proof.
  unfold _should_compact.
  cbn [_add_turn update_self m_modify snd self set_active cfg active_turns].
  rewrite length_app, estimate_tokens_app. cbn [length].
  destruct (Z.leb_spec (max_turns (cfg (self st)))
              (Z.of_nat (length (active_turns (self st))))) as [Ht|Ht].
  - intros _. destruct (Z.leb_spec (max_turns (cfg (self st)))
                          (Z.of_nat (length (active_turns (self st)) + 1)));
      [reflexivity | lia].
  - destruct (Z.leb_spec (max_tokens (cfg (self st)))
                (Z.of_nat (_estimate_tokens (active_turns (self st)))));
      [|discriminate].
    intros _.
    destruct (Z.leb_spec (max_turns (cfg (self st)))
                (Z.of_nat (length (active_turns (self st)) + 1)));
      [reflexivity|].
    destruct (Z.leb_spec (max_tokens (cfg (self st)))
                (Z.of_nat (_estimate_tokens (active_turns (self st))
                           + _estimate_tokens [mkTurn role content ts id])));
      [reflexivity | lia].
Qed.


Lemma missing_session_reads_empty_witness :
  (exists w' : World,
      read_all Demo.the_store (tx "s9") Demo.archived = (Ok [], w')
      /\ files w' = files Demo.archived)
  /\ (forall (query : text) (k : Z),
         exists w' : World,
           keyword_search Demo.the_store (tx "s9") query k Demo.archived = (Ok [], w')
           /\ files w' = files Demo.archived).
Proof.
  apply missing_session_reads_empty. vm_compute. reflexivity.
Defined.


Lemma append_leaves_other_sessions_witness :
  let w' := snd (append Demo.the_store (tx "s2") [turn_dict Demo.turn3] Demo.archived) in
  files w' !! _path Demo.the_store (tx "s1")
  = files Demo.archived !! _path Demo.the_store (tx "s1")
  /\ fst (read_all Demo.the_store (tx "s1") w')
     = fst (read_all Demo.the_store (tx "s1") Demo.archived).
Proof.
  apply (append_leaves_other_sessions Demo.the_store (tx "s2") (tx "s1")
           [turn_dict Demo.turn3] Demo.archived _
           (fst (append Demo.the_store (tx "s2") [turn_dict Demo.turn3] Demo.archived)));
    [reflexivity | reflexivity | discriminate | apply surjective_pairing].
Defined.

Lemma larger_top_k_extends_witness :
  exists (hits hits' : list Hit) (w1 w2 : World),
    keyword_search Demo.the_store (tx "s1") (tx "cat") 1 Demo.archived = (Ok hits, w1)
    /\ keyword_search Demo.the_store (tx "s1") (tx "cat") 5 Demo.archived
       = (Ok hits', w2)
    /\ hits = take 1 hits' /\ w1 = w2
    /\ length hits = 1 /\ length hits' = 3.
Proof.
  destruct (keyword_search Demo.the_store (tx "s1") (tx "cat") 1 Demo.archived)
    as [[hits|e] w1] eqn:H1; [|vm_compute in H1; discriminate H1].
  destruct (keyword_search Demo.the_store (tx "s1") (tx "cat") 5 Demo.archived)
    as [[hits'|e] w2] eqn:H2; [|vm_compute in H2; discriminate H2].
  exists hits, hits', w1, w2. split; [reflexivity|]. split; [reflexivity|].
  destruct (larger_top_k_extends _ _ _ 1 5 _ _ _ _ _ ltac:(lia) H1 H2) as [Ht Hw].
  split; [exact Ht|]. split; [exact Hw|].
  vm_compute in H1, H2. injection H1 as <- _. injection H2 as <- _.
  split; reflexivity.
Defined.

Lemma negative_top_k_drops_last_witness :
  exists hits : list Hit,
    keyword_search Demo.the_store (tx "s1") (tx "cat") (-1) Demo.archived
    = (Ok hits, opened (_path Demo.the_store (tx "s1")) Demo.archived)
    /\ hits = take (length (positive_hits (lower (strip (tx "cat")))
                              (map turn_dict [Demo.turn1; Demo.turn2; Demo.turn3;
                                              Demo.turn4]))
                    - Z.to_nat (- -1))
                (sort_desc (positive_hits (lower (strip (tx "cat")))
                              (map turn_dict [Demo.turn1; Demo.turn2; Demo.turn3;
                                              Demo.turn4])))
    /\ length hits
       = length (positive_hits (lower (strip (tx "cat")))
                   (map turn_dict [Demo.turn1; Demo.turn2; Demo.turn3; Demo.turn4]))
         - Z.to_nat (- -1).
Proof.
  apply negative_top_k_drops_last.
  - lia.
  - vm_compute. discriminate.
  - vm_compute. reflexivity.
  - repeat constructor.
Defined.

Lemma ledger_matches_messages_witness :
  exists (msgs : list Message) (ledger : PromptLedger) (st' : State),
    build_messages (tx " You are terse. ") (tx "where is the cat?")
      (Some (tx " CAT ")) Demo.later = (Ok (msgs, ledger), st')
    /\ (length msgs
        = 2 + Nat.b2n (included_summary ledger) + included_active_turns ledger
          + (if included_history_hits ledger =? 0 then 0 else 1)
        /\ included_active_turns ledger = length (active_turns (self st'))
        /\ take (included_active_turns ledger)
             (drop (1 + Nat.b2n (included_summary ledger)) msgs)
           = map (fun t => mkMessage (t_role t) (t_content t))
               (active_turns (self st'))
        /\ l_session_id ledger = session_id (self st')
        /\ n_history_query (notes ledger) = Some (tx " CAT "))
    /\ (included_summary ledger, included_active_turns ledger,
        included_history_hits ledger, length msgs) = (true, 1, 3, 5).
Proof.
  destruct (build_messages (tx " You are terse. ") (tx "where is the cat?")
              (Some (tx " CAT ")) Demo.later) as [[[msgs ledger]|e] st'] eqn:Hrun;
    [|vm_compute in Hrun; discriminate Hrun].
  exists msgs, ledger, st'. split; [reflexivity|].
  split; [exact (ledger_matches_messages _ _ _ _ _ _ _ Hrun)|].
  vm_compute in Hrun. injection Hrun as <- <- _. reflexivity.
Defined.

Lemma build_messages_leaves_budget_witness :
  exists (msgs : list Message) (ledger : PromptLedger) (st' : State),
    build_messages (tx "sys") (tx "hi") None Demo2.full = (Ok (msgs, ledger), st')
    /\ _should_compact (self Demo2.full) = true
    /\ _should_compact (self st') = false
    /\ (Z.of_nat (included_active_turns ledger) < max_turns (cfg (self Demo2.full)))%Z
    /\ (Z.of_nat (_estimate_tokens (active_turns (self st')))
        < max_tokens (cfg (self Demo2.full)))%Z.
Proof.
  destruct (build_messages (tx "sys") (tx "hi") None Demo2.full)
    as [[[msgs ledger]|e] st'] eqn:Hrun;
    [|vm_compute in Hrun; discriminate Hrun].
  exists msgs, ledger, st'. split; [reflexivity|]. split; [reflexivity|].
  apply (build_messages_leaves_budget (tx "sys") (tx "hi") None Demo2.full st' msgs);
    [cbn; lia | cbn; lia | exact Hrun].
Defined.

Lemma build_messages_idle_witness :
  (forall (hq : option text) (r : result (list Message * PromptLedger))
          (st' : State),
      build_messages (tx "sys") (tx "hi") hq Demo2.fresh = (r, st') ->
      self st' = self Demo2.fresh
      /\ files (world st') = files (world Demo2.fresh)
      /\ write_budget (world st') = write_budget (world Demo2.fresh))
  /\ (forall hq : option text,
         match hq with
         | Some q => lower (strip q) = []
         | None => True
         end ->
         exists (msgs : list Message) (ledger : PromptLedger),
           build_messages (tx "sys") (tx "hi") hq Demo2.fresh
           = (Ok (msgs, ledger), Demo2.fresh)).
Proof.
  apply build_messages_idle. reflexivity.
Defined.

Lemma blank_query_is_no_query_witness :
  build_messages (tx "sys") (tx "hi") None Demo.later
  = (match fst (build_messages (tx "sys") (tx "hi") (Some (tx "   ")) Demo.later) with
     | Ok (msgs, ledger) => Ok (msgs, without_query ledger)
     | Exc e => Exc e
     end,
     snd (build_messages (tx "sys") (tx "hi") (Some (tx "   ")) Demo.later)).
Proof.
  apply blank_query_is_no_query. reflexivity.
Defined.

Lemma build_messages_error_sources_witness :
  exists st' : State,
    build_messages (tx "sys") (tx "hi") (Some (tx "cat"))
      (Demo.due Demo.broken Demo.empty_world)
    = (Exc (ClientError (tx "timeout")), st')
    /\ ((_should_compact (self (Demo.due Demo.broken Demo.empty_world)) = true
         /\ _compact (Demo.due Demo.broken Demo.empty_world)
            = (Exc (ClientError (tx "timeout")), st'))
        \/ (exists (st1 : State) (q : text),
               Some (tx "cat") = Some q /\ q <> []
               /\ compaction_step (Demo.due Demo.broken Demo.empty_world) = (Ok tt, st1)
               /\ in_world (keyword_search (store (self st1)) (session_id (self st1))
                              q (search_top_k (cfg (self st1)))) st1
                  = (Exc (ClientError (tx "timeout")), st'))).
Proof.
  destruct (build_messages (tx "sys") (tx "hi") (Some (tx "cat"))
              (Demo.due Demo.broken Demo.empty_world)) as [[[msgs ledger]|e] st'] eqn:Hrun;
    [vm_compute in Hrun; discriminate Hrun|].
  assert (He : e = ClientError (tx "timeout")).
  { pose proof Hrun as H. vm_compute in H. by injection H as <- _. }
  subst e. exists st'. split; [reflexivity|].
  exact (build_messages_error_sources _ _ _ _ _ _ Hrun).
Defined.

Lemma failed_compaction_archives_again_witness :
  exists st1 : State,
    _compact (Demo.due Demo.broken Demo.empty_world)
    = (Exc (ClientError (tx "timeout")), st1)
    /\ active_turns (self st1) = [Demo.turn1; Demo.turn2]
    /\ files (world st1) !! _path Demo.the_store (tx "s1")
       = Some (default [] (files Demo.empty_world !! _path Demo.the_store (tx "s1"))
               ++ records_text (map turn_dict [Demo.turn1; Demo.turn2]))
    /\ forall sm : LlmSummarizer.t,
         exists (r : result unit) (st2 : State),
           _compact (mkState (with_summarizer sm (self st1)) (world st1)) = (r, st2)
           /\ files (world st2) !! _path Demo.the_store (tx "s1")
              = Some (default [] (files Demo.empty_world
                                  !! _path Demo.the_store (tx "s1"))
                      ++ records_text (map turn_dict [Demo.turn1; Demo.turn2])
                      ++ records_text (map turn_dict [Demo.turn1; Demo.turn2])).
Proof.
  apply (failed_compaction_archives_again (Demo.due Demo.broken Demo.empty_world));
    [discriminate | reflexivity | reflexivity].
Defined.

Lemma due_compaction_round_trip_witness :
  exists (msgs : list Message) (ledger : PromptLedger) (st' : State),
    build_messages (tx "sys") (tx "hi") None (Demo.due Demo.steady Demo.empty_world)
    = (Ok (msgs, ledger), st')
    /\ active_turns (self st') = []
    /\ included_active_turns ledger = 0
    /\ rolling_summary (self st')
       = strip (slice_to 1400 (strip (tx "  Goal: find the cat  ")))
    /\ fst (read_all Demo.the_store (tx "s1") (world st'))
       = Ok (map turn_dict [Demo.turn1; Demo.turn2]).
Proof.
  apply (due_compaction_round_trip (tx "sys") (tx "hi")
           (Demo.due Demo.steady Demo.empty_world) (tx "  Goal: find the cat  "));
    [apply lookup_empty | reflexivity | repeat constructor | discriminate
    | reflexivity | reflexivity].
Defined.

Lemma negative_summary_cap_drops_tail_witness :
  exists st' : State,
    _compact Demo2.odd_cap = (Ok tt, st')
    /\ (exists answer : text,
           LlmSummarizer.llm_client Demo.steady LlmSummarizer.system_prompt
             (LlmSummarizer.user_prompt [] [Demo.turn1; Demo.turn2]) = Ok answer
           /\ rolling_summary (self st')
              = strip (take (length (strip answer) - Z.to_nat (- -6)) (strip answer)))
    /\ rolling_summary (self st') = tx "Goal: find t".
Proof.
  destruct (_compact Demo2.odd_cap) as [[[]|e] st'] eqn:Hrun;
    [|vm_compute in Hrun; discriminate Hrun].
  exists st'. split; [reflexivity|]. split.
  - apply (negative_summary_cap_drops_tail Demo2.odd_cap st');
      [discriminate | cbn; lia | exact Hrun].
  - vm_compute in Hrun. injection Hrun as <-. reflexivity.
Defined.

Lemma compaction_stays_due_witness :
  _should_compact
    (self (snd (_add_turn (tx "user") (tx "one more") (tx "1730750009.5") (tx "a9")
                  (Demo.due Demo.steady Demo.empty_world)))) = true.
Proof. apply compaction_stays_due. reflexivity. Defined.

